(** * Mock OMR Sheet: answer-key parsing and grading

    A shallow embedding of [script.js].  The script keeps its state in
    module-level variables and in the page (form fields, the rows of the
    sheet, the error and result panels); here both live in one record
    [State], and every handler of the script is a function on it.

    Conventions of the embedding:
    - text is ASCII: a JavaScript string is a [string], one [ascii] per
      code unit; [toUpperCase] and the white space of [trim], [parseInt]
      and the regular expression are the ASCII ones;
    - an integer-valued JavaScript number is a [Z] (question numbers, the
      property names of [answerKey]) or a [nat] (counters, lengths); they
      are exact below 2^53, which is the range the embedding covers;
    - marks are JavaScript numbers that need not be integers: they are
      [num], either [NaN] or an exact rational; the rounding of IEEE
      doubles is not modelled;
    - [answerKey] is an object used as a map from question numbers to
      one-letter strings: a [gmap Z string];
    - a handler that can be stopped by an uncaught exception returns an
      [outcome]: [Done] or [Threw], each with the state reached. *)

From Stdlib Require Import QArith.
From Stdlib Require Import Ascii String DecimalString DecimalPos.
From stdpp Require Import gmap strings list fin_maps.

Local Open Scope string_scope.
Local Open Scope list_scope.
Local Open Scope Z_scope.

(** ** JavaScript built-ins used by the script *)

Module Js.

(** White space as [String.prototype.trim], [parseInt], [parseFloat] and
    the class [\s] see it, on ASCII: TAB, LF, VT, FF, CR and SPACE. *)
Definition isWhiteSpace (c : ascii) : bool :=
  let n := nat_of_ascii c in
  ((9 <=? n)%nat && (n <=? 13)%nat) || (n =? 32)%nat.

(** [\d] *)
Definition isDigit (c : ascii) : bool :=
  let n := nat_of_ascii c in (48 <=? n)%nat && (n <=? 57)%nat.

(** [\w]: letters, digits and the underscore. *)
Definition isWordChar (c : ascii) : bool :=
  let n := nat_of_ascii c in
  isDigit c || ((65 <=? n)%nat && (n <=? 90)%nat)
            || ((97 <=? n)%nat && (n <=? 122)%nat) || (n =? 95)%nat.

Definition digitValue (c : ascii) : Z := Z.of_nat (nat_of_ascii c) - 48.

Fixpoint trimStart (s : string) : string :=
  match s with
  | String c r => if isWhiteSpace c then trimStart r else s
  | EmptyString => EmptyString
  end.

Fixpoint trimEnd (s : string) : string :=
  match s with
  | String c r =>
      match trimEnd r with
      | EmptyString => if isWhiteSpace c then EmptyString else String c EmptyString
      | r' => String c r'
      end
  | EmptyString => EmptyString
  end.

(** [s.trim()] *)
Definition trim (s : string) : string := trimEnd (trimStart s).

Definition toUpperChar (c : ascii) : ascii :=
  let n := nat_of_ascii c in
  if (97 <=? n)%nat && (n <=? 122)%nat then ascii_of_nat (n - 32) else c.

(** [s.toUpperCase()] *)
Fixpoint toUpperCase (s : string) : string :=
  match s with
  | String c r => String (toUpperChar c) (toUpperCase r)
  | EmptyString => EmptyString
  end.

(** [s[i]]: the one-character string at index [i], [undefined] out of
    range. *)
Definition charAt (s : string) (i : nat) : option string :=
  match String.get i s with
  | Some c => Some (String c EmptyString)
  | None => None
  end.

(** The longest prefix of decimal digits of [s], and what follows it. *)
Fixpoint spanDigits (s : string) : list ascii * string :=
  match s with
  | String c r =>
      if isDigit c then let '(ds, rest) := spanDigits r in (c :: ds, rest)
      else ([], s)
  | EmptyString => ([], EmptyString)
  end.

(** The number a row of decimal digits denotes. *)
Definition digitsValue (ds : list ascii) : Z :=
  foldl (fun acc c => 10 * acc + digitValue c) 0 ds.

(** An optional sign: the factor it stands for and the rest. *)
Definition takeSign (s : string) : Z * string :=
  match s with
  | String "-" r => (-1, r)
  | String "+" r => (1, r)
  | _ => (1, s)
  end.

(** [parseInt(s, 10)]: leading white space is dropped, a sign is read,
    then the longest run of digits; [None] is [NaN]. *)
Definition parseInt (s : string) : option Z :=
  let '(sign, r) := takeSign (trimStart s) in
  match spanDigits r with
  | ([], _) => None
  | (ds, _) => Some (sign * digitsValue ds)
  end.

(** JavaScript numbers that need not be integers. *)
Inductive num : Type :=
| NaN
| Fin (q : Q).

Definition ofZ (z : Z) : num := Fin (inject_Z z).
Definition ofNat (n : nat) : num := ofZ (Z.of_nat n).

Definition mul (a b : num) : num :=
  match a, b with
  | Fin x, Fin y => Fin (x * y)
  | _, _ => NaN
  end.

Definition add (a b : num) : num :=
  match a, b with
  | Fin x, Fin y => Fin (x + y)
  | _, _ => NaN
  end.

Definition neg (a : num) : num :=
  match a with
  | Fin x => Fin (- x)
  | NaN => NaN
  end.

(** [a > 0] *)
Definition isPositive (a : num) : bool :=
  match a with
  | Fin x => match Qcompare x 0 with Gt => true | _ => false end
  | NaN => false
  end.

(** Truthiness of a number: [NaN] and zero are falsy. *)
Definition truthy (a : num) : bool :=
  match a with
  | Fin x => negb (Qeq_bool x 0)
  | NaN => false
  end.

(** An exponent part [e], [e+] or [e-] followed by digits; [None] when
    the text does not continue with one. *)
Definition takeExponent (s : string) : option Z :=
  match s with
  | String c r =>
      if (Ascii.eqb c "e" || Ascii.eqb c "E")%bool then
        let '(sign, r') := takeSign r in
        match spanDigits r' with
        | ([], _) => None
        | (ds, _) => Some (sign * digitsValue ds)
        end
      else None
  | EmptyString => None
  end.

Definition scale (q : Q) (e : option Z) : Q :=
  match e with
  | Some z => (q * Qpower (inject_Z 10) z)%Q
  | None => q
  end.

(** [parseFloat(s)] on decimal literals: white space, a sign, digits with
    an optional fraction and an optional exponent.  The literal
    [Infinity] is outside the embedding. *)
Definition parseFloat (s : string) : num :=
  let '(sign, r) := takeSign (trimStart s) in
  let '(ip, r1) := spanDigits r in
  match r1 with
  | String "." r2 =>
      let '(fp, r3) := spanDigits r2 in
      match ip, fp with
      | [], [] => NaN
      | _, _ =>
          let m := (inject_Z (digitsValue ip)
                    + inject_Z (digitsValue fp) / inject_Z (10 ^ Z.of_nat (length fp)))%Q in
          Fin (inject_Z sign * scale m (takeExponent r3))%Q
      end
  | _ =>
      match ip with
      | [] => NaN
      | _ => Fin (inject_Z sign * scale (inject_Z (digitsValue ip)) (takeExponent r1))%Q
      end
  end.

End Js.

(** ** Regular expressions

    [parseAnswerKeyFromText] scans with a regular-expression literal.  The
    constructs it uses are embedded with the backtracking semantics of
    [RegExp.prototype.exec]: quantifiers are greedy and give characters
    back one at a time, and the first alternative that lets the rest of
    the pattern match wins. *)

Module Regex.

Inductive re : Type :=
| Class (p : ascii -> bool)      (* one character of a class *)
| Star (p : ascii -> bool)       (* [c*] *)
| Plus (p : ascii -> bool)       (* [c+] *)
| Opt (p : ascii -> bool)        (* [c?] *)
| Boundary                       (* [\b] *)
| Cap (r : re)                   (* a capturing group *)
| Seq (r1 r2 : re).

(** How many characters from the head of [l] are in the class [p]. *)
Fixpoint runLength (p : ascii -> bool) (l : list ascii) : nat :=
  match l with
  | c :: r => if p c then S (runLength p r) else 0%nat
  | [] => 0%nat
  end.

(** Backtracking of a greedy quantifier: continue after [n] more
    characters, then after [n - 1], ..., then after none. *)
Fixpoint tryDown {X} (k : nat -> option X) (i n : nat) : option X :=
  match k (i + n)%nat with
  | Some x => Some x
  | None => match n with
            | S n' => tryDown k i n'
            | O => None
            end
  end.

Definition inClass (p : ascii -> bool) (text : list ascii) (i : nat) : bool :=
  match text !! i with
  | Some c => p c
  | None => false
  end.

(** [\b] holds at [i] when exactly one of the characters before and at
    [i] is a word character. *)
Definition atBoundary (text : list ascii) (i : nat) : bool :=
  xorb (match i with
        | S j => inClass Js.isWordChar text j
        | O => false
        end)
       (inClass Js.isWordChar text i).

(** The groups captured so far, as (start, end) pairs, in the order the
    groups close. *)
Definition captures : Type := list (nat * nat).

(** [matchRe r text i caps k]: match [r] at position [i] and hand the
    end position and the captures to the continuation [k]; when [k]
    fails, the next alternative of [r] is tried. *)
Fixpoint matchRe {X} (r : re) (text : list ascii) (i : nat) (caps : captures)
    (k : nat -> captures -> option X) : option X :=
  match r with
  | Class p => if inClass p text i then k (S i) caps else None
  | Star p => tryDown (fun j => k j caps) i (runLength p (drop i text))
  | Plus p =>
      match runLength p (drop i text) with
      | S n => tryDown (fun j => k j caps) (S i) n
      | O => None
      end
  | Opt p =>
      if inClass p text i then
        match k (S i) caps with
        | Some x => Some x
        | None => k i caps
        end
      else k i caps
  | Boundary => if atBoundary text i then k i caps else None
  | Cap r' => matchRe r' text i caps (fun j c => k j (c ++ [(i, j)]))
  | Seq r1 r2 => matchRe r1 text i caps (fun j c => matchRe r2 text j c k)
  end.

(** The array [exec] returns, and the [lastIndex] it leaves behind. *)
Record result : Type := mkResult {
  index : nat;
  lastIndex : nat;
  groups : list string
}.

Definition slice (text : list ascii) (span : nat * nat) : string :=
  string_of_list_ascii (take (snd span - fst span) (drop (fst span) text)).

Definition matchAt (r : re) (text : list ascii) (i : nat) : option result :=
  matchRe r text i [] (fun j c => Some (mkResult i j (slice text <$> c))).

Fixpoint firstMatch (r : re) (text : list ascii) (starts : list nat) : option result :=
  match starts with
  | i :: rest =>
      match matchAt r text i with
      | Some m => Some m
      | None => firstMatch r text rest
      end
  | [] => None
  end.

(** [regex.exec(text)] for a global regular expression whose [lastIndex]
    is [from]: the match at the first position at or after [from] that
    has one; [None] is [null]. *)
Definition exec (r : re) (text : string) (from : nat) : option result :=
  let l := list_ascii_of_string text in
  firstMatch r l (seq from (S (length l) - from)).

(** [match[n]] for [n >= 1]; a group always takes part in a match of the
    pattern used here, so the default is never read. *)
Definition group (m : result) (n : nat) : string :=
  default EmptyString (groups m !! (n - 1)%nat).

End Regex.

(** ** The page and the variables of the script *)

(** The four options of a question; [value] is the [value] attribute of
    the radio button. *)
Inductive Letter : Type := OptA | OptB | OptC | OptD.

Definition value (o : Letter) : string :=
  match o with
  | OptA => "A"
  | OptB => "B"
  | OptC => "C"
  | OptD => "D"
  end.

Definition letters : list Letter := [OptA; OptB; OptC; OptD].

#[global] Instance Letter_eq_dec : EqDecision Letter.
Proof. solve_decision. Defined.

(** The class grading puts on a row. *)
Inductive RowClass : Type := ClsCorrect | ClsIncorrect.

(** One row of the sheet, as [createQuestionRow] builds it: a group of
    four radio buttons, their labels and a Clear button. *)
Record Row : Type := mkRow {
  checked : option Letter;     (* the radio of the group that is checked *)
  disabled : bool;             (* the radios of the group are disabled *)
  clearHidden : bool;          (* the Clear button is hidden *)
  rowClass : option RowClass;  (* class [correct] or [incorrect] of the row *)
  ringed : list Letter         (* labels that carry the green ring *)
}.

(** The messages [showError] is called with. *)
Inductive Message : Type :=
| MsgQuestionCount                             (* "Please enter a number between 1 and 200." *)
| MsgManualKeyLength (actual expected : nat)   (* "Manual key has .. answers, but there are .. questions." *)
| MsgUploadedKeyLength (actual expected : nat) (* "Uploaded key has .. answers, but there are .. questions." *)
| MsgNoAnswersExcel                            (* "Could not find valid answers in the Excel file." *)
| MsgNoAnswersPdf.                             (* "Could not find valid answers in the PDF." *)

(** The messages [showStatusMessage] is called with. *)
Inductive Status : Type :=
| StatusLoaded (parsedCount : nat)   (* ".. answers loaded. Click ..." *)
| StatusCanSave                      (* "You can now save your marked sheet." *)
| StatusGeneratingPdf.               (* "Generating PDF..." *)

(** What [gradeSheet] writes into the results panel. *)
Inductive ScoreText : Type :=
| Weighted (totalScore maxScore gained lost : Js.num)
| Fraction (correct total : nat).

Record Results : Type := mkResults {
  score : ScoreText;
  correctCount : nat;
  incorrectCount : nat;
  unansweredCount : nat
}.

(** The [onclick] property of the check button.  The listener that the
    script adds to the button at load time stays in place beside it. *)
Inductive Onclick : Type :=
| OnclickNone      (* never assigned *)
| OnclickCheck     (* [handleCheckAnswers] *)
| OnclickSave.     (* [() => saveResultAsPDF()] *)

Record State : Type := mkState {
  totalQuestions : nat;
  correctMarks : option Js.num;
  wrongMarks : option Js.num;
  answerKey : gmap Z string;
  timerRunning : bool;
  isGraded : bool;
  questionCountInput : string;
  correctMarksInput : string;
  wrongMarksInput : string;
  manualKeyInput : string;
  configError : option Message;
  checkError : option Message;
  statusMessage : option Status;
  sheet : list Row;
  confirmModalHidden : bool;
  results : option Results;
  checkBtnOnclick : Onclick
}.

(** Field by field:
    - [totalQuestions]: [totalQuestions];
    - [correctMarks]: [correctMarks]; [None] is [null];
    - [wrongMarks]: [wrongMarks]; [None] is [null];
    - [answerKey]: [answerKey];
    - [timerRunning]: an interval is registered under [timerInterval];
    - [isGraded]: [isGraded];
    - [questionCountInput]: value of the question-count field;
    - [correctMarksInput]: value of the correct-marks field;
    - [wrongMarksInput]: value of the wrong-marks field;
    - [manualKeyInput]: value of the manual-key field;
    - [configError]: message shown in the configuration area;
    - [checkError]: message shown in the check area;
    - [statusMessage]: status line, when shown;
    - [sheet]: the rows of the sheet, question 1 first;
    - [confirmModalHidden]: the confirmation dialog is hidden;
    - [results]: the results panel, when shown;
    - [checkBtnOnclick]: the [onclick] property of the check button. *)

(** Assignments to one field. *)
Definition set_totalQuestions (v : nat) (s : State) : State :=
  mkState v (correctMarks s) (wrongMarks s) (answerKey s) (timerRunning s) (isGraded
    s) (questionCountInput s) (correctMarksInput s) (wrongMarksInput s) (manualKeyInput
    s) (configError s) (checkError s) (statusMessage s) (sheet s) (confirmModalHidden s)
    (results s) (checkBtnOnclick s).
Definition set_correctMarks (v : option Js.num) (s : State) : State :=
  mkState (totalQuestions s) v (wrongMarks s) (answerKey s) (timerRunning s) (isGraded
    s) (questionCountInput s) (correctMarksInput s) (wrongMarksInput s) (manualKeyInput
    s) (configError s) (checkError s) (statusMessage s) (sheet s) (confirmModalHidden s)
    (results s) (checkBtnOnclick s).
Definition set_wrongMarks (v : option Js.num) (s : State) : State :=
  mkState (totalQuestions s) (correctMarks s) v (answerKey s) (timerRunning s)
    (isGraded s) (questionCountInput s) (correctMarksInput s) (wrongMarksInput s)
    (manualKeyInput s) (configError s) (checkError s) (statusMessage s) (sheet s)
    (confirmModalHidden s) (results s) (checkBtnOnclick s).
Definition set_answerKey (v : gmap Z string) (s : State) : State :=
  mkState (totalQuestions s) (correctMarks s) (wrongMarks s) v (timerRunning s)
    (isGraded s) (questionCountInput s) (correctMarksInput s) (wrongMarksInput s)
    (manualKeyInput s) (configError s) (checkError s) (statusMessage s) (sheet s)
    (confirmModalHidden s) (results s) (checkBtnOnclick s).
Definition set_timerRunning (v : bool) (s : State) : State :=
  mkState (totalQuestions s) (correctMarks s) (wrongMarks s) (answerKey s) v (isGraded
    s) (questionCountInput s) (correctMarksInput s) (wrongMarksInput s) (manualKeyInput
    s) (configError s) (checkError s) (statusMessage s) (sheet s) (confirmModalHidden s)
    (results s) (checkBtnOnclick s).
Definition set_isGraded (v : bool) (s : State) : State :=
  mkState (totalQuestions s) (correctMarks s) (wrongMarks s) (answerKey s)
    (timerRunning s) v (questionCountInput s) (correctMarksInput s) (wrongMarksInput s)
    (manualKeyInput s) (configError s) (checkError s) (statusMessage s) (sheet s)
    (confirmModalHidden s) (results s) (checkBtnOnclick s).
Definition set_questionCountInput (v : string) (s : State) : State :=
  mkState (totalQuestions s) (correctMarks s) (wrongMarks s) (answerKey s)
    (timerRunning s) (isGraded s) v (correctMarksInput s) (wrongMarksInput s)
    (manualKeyInput s) (configError s) (checkError s) (statusMessage s) (sheet s)
    (confirmModalHidden s) (results s) (checkBtnOnclick s).
Definition set_correctMarksInput (v : string) (s : State) : State :=
  mkState (totalQuestions s) (correctMarks s) (wrongMarks s) (answerKey s)
    (timerRunning s) (isGraded s) (questionCountInput s) v (wrongMarksInput s)
    (manualKeyInput s) (configError s) (checkError s) (statusMessage s) (sheet s)
    (confirmModalHidden s) (results s) (checkBtnOnclick s).
Definition set_wrongMarksInput (v : string) (s : State) : State :=
  mkState (totalQuestions s) (correctMarks s) (wrongMarks s) (answerKey s)
    (timerRunning s) (isGraded s) (questionCountInput s) (correctMarksInput s) v
    (manualKeyInput s) (configError s) (checkError s) (statusMessage s) (sheet s)
    (confirmModalHidden s) (results s) (checkBtnOnclick s).
Definition set_manualKeyInput (v : string) (s : State) : State :=
  mkState (totalQuestions s) (correctMarks s) (wrongMarks s) (answerKey s)
    (timerRunning s) (isGraded s) (questionCountInput s) (correctMarksInput s)
    (wrongMarksInput s) v (configError s) (checkError s) (statusMessage s) (sheet s)
    (confirmModalHidden s) (results s) (checkBtnOnclick s).
Definition set_configError (v : option Message) (s : State) : State :=
  mkState (totalQuestions s) (correctMarks s) (wrongMarks s) (answerKey s)
    (timerRunning s) (isGraded s) (questionCountInput s) (correctMarksInput s)
    (wrongMarksInput s) (manualKeyInput s) v (checkError s) (statusMessage s) (sheet s)
    (confirmModalHidden s) (results s) (checkBtnOnclick s).
Definition set_checkError (v : option Message) (s : State) : State :=
  mkState (totalQuestions s) (correctMarks s) (wrongMarks s) (answerKey s)
    (timerRunning s) (isGraded s) (questionCountInput s) (correctMarksInput s)
    (wrongMarksInput s) (manualKeyInput s) (configError s) v (statusMessage s) (sheet s)
    (confirmModalHidden s) (results s) (checkBtnOnclick s).
Definition set_statusMessage (v : option Status) (s : State) : State :=
  mkState (totalQuestions s) (correctMarks s) (wrongMarks s) (answerKey s)
    (timerRunning s) (isGraded s) (questionCountInput s) (correctMarksInput s)
    (wrongMarksInput s) (manualKeyInput s) (configError s) (checkError s) v (sheet s)
    (confirmModalHidden s) (results s) (checkBtnOnclick s).
Definition set_sheet (v : list Row) (s : State) : State :=
  mkState (totalQuestions s) (correctMarks s) (wrongMarks s) (answerKey s)
    (timerRunning s) (isGraded s) (questionCountInput s) (correctMarksInput s)
    (wrongMarksInput s) (manualKeyInput s) (configError s) (checkError s) (statusMessage
    s) v (confirmModalHidden s) (results s) (checkBtnOnclick s).
Definition set_confirmModalHidden (v : bool) (s : State) : State :=
  mkState (totalQuestions s) (correctMarks s) (wrongMarks s) (answerKey s)
    (timerRunning s) (isGraded s) (questionCountInput s) (correctMarksInput s)
    (wrongMarksInput s) (manualKeyInput s) (configError s) (checkError s) (statusMessage
    s) (sheet s) v (results s) (checkBtnOnclick s).
Definition set_results (v : option Results) (s : State) : State :=
  mkState (totalQuestions s) (correctMarks s) (wrongMarks s) (answerKey s)
    (timerRunning s) (isGraded s) (questionCountInput s) (correctMarksInput s)
    (wrongMarksInput s) (manualKeyInput s) (configError s) (checkError s) (statusMessage
    s) (sheet s) (confirmModalHidden s) v (checkBtnOnclick s).
Definition set_checkBtnOnclick (v : Onclick) (s : State) : State :=
  mkState (totalQuestions s) (correctMarks s) (wrongMarks s) (answerKey s)
    (timerRunning s) (isGraded s) (questionCountInput s) (correctMarksInput s)
    (wrongMarksInput s) (manualKeyInput s) (configError s) (checkError s) (statusMessage
    s) (sheet s) (confirmModalHidden s) (results s) v.

(** ** Helpers of the script *)

(** A handler either runs to its end or is stopped by an exception nobody
    catches; either way the assignments made so far stay. *)
Inductive outcome : Type :=
| Done (s : State)
| Threw (s : State).

Definition stateOf (o : outcome) : State :=
  match o with
  | Done s => s
  | Threw s => s
  end.

(** The two elements [showError] and [hideError] are called with. *)
Inductive ErrorArea : Type := ConfigArea | CheckArea.

Definition showError (element : ErrorArea) (message : Message) (s : State) : State :=
  match element with
  | ConfigArea => set_configError (Some message) s
  | CheckArea => set_checkError (Some message) s
  end.

Definition hideError (element : ErrorArea) (s : State) : State :=
  match element with
  | ConfigArea => set_configError None s
  | CheckArea => set_checkError None s
  end.

Definition showStatusMessage (message : Status) (s : State) : State :=
  set_statusMessage (Some message) s.

Definition hideStatusMessage (s : State) : State := set_statusMessage None s.

(** The clock itself is not part of the state: [startTimer] registers the
    interval and [stopTimer] clears it. *)
Definition startTimer (s : State) : State := set_timerRunning true s.
Definition stopTimer (s : State) : State := set_timerRunning false s.

(** The row is the same for every question number, which only goes into
    the ids and names of its elements. *)
Definition createQuestionRow (i : nat) : Row := mkRow None false true None [].

(** [row.querySelector('.ring-2')] finds the first ringed label of the
    row in document order, and the ring is taken off that one. *)
Definition removeFirstRing (rs : list Letter) : list Letter :=
  match filter (fun o => o ∈ rs) letters with
  | o :: _ => filter (fun o' => o' ≠ o) rs
  | [] => rs
  end.

Definition resetRow (row : Row) : Row :=
  mkRow None false (clearHidden row) None (removeFirstRing (ringed row)).

Definition resetOMRState (s : State) : State :=
  set_sheet (resetRow <$> sheet s)
    (set_checkBtnOnclick OnclickCheck
      (set_isGraded false
        (hideStatusMessage
          (hideError CheckArea
            (set_results None
              (set_manualKeyInput EmptyString
                (set_answerKey ∅ s))))))).

Definition resetEverything (s : State) : State :=
  set_timerRunning false
    (resetOMRState
      (set_wrongMarks None
        (set_correctMarks None
          (set_totalQuestions 0%nat
            (set_sheet []
              (set_wrongMarksInput EmptyString
                (set_correctMarksInput EmptyString
                  (set_questionCountInput EmptyString s)))))))).

Definition nonEmpty (s : string) : bool :=
  match s with
  | EmptyString => false
  | String _ _ => true
  end.

(** [input.value ? parseFloat(input.value) : null] *)
Definition readMarks (v : string) : option Js.num :=
  if nonEmpty v then Some (Js.parseFloat v) else None.

(** [if (wrongMarks !== null && wrongMarks > 0) wrongMarks = -wrongMarks] *)
Definition normalizeWrongMarks (w : option Js.num) : option Js.num :=
  match w with
  | Some x => if Js.isPositive x then Some (Js.neg x) else Some x
  | None => None
  end.

Definition generateOMRSheet (s : State) : State :=
  match Js.parseInt (questionCountInput s) with
  | None => showError ConfigArea MsgQuestionCount s
  | Some count =>
      if (count <? 1) || (200 <? count) then showError ConfigArea MsgQuestionCount s
      else
        let n := Z.to_nat count in
        startTimer
          (resetOMRState
            (set_sheet (createQuestionRow <$> seq 1 n)
              (set_wrongMarks (normalizeWrongMarks (readMarks (wrongMarksInput s)))
                (set_correctMarks (readMarks (correctMarksInput s))
                  (set_totalQuestions n
                    (hideError ConfigArea s))))))
  end.

(** ** Taking the sheet: the radio buttons and the Clear buttons *)

(** Questions are numbered from 1: the row of question [i] is the row
    at index [i - 1] of the sheet, and there is no question 0. *)

(** A click on option [o] of question [i].  A disabled radio button does
    not react; otherwise it becomes the checked one of its group and the
    [change] listener of the row shows the Clear button. *)
Definition clickOption (i : nat) (o : Letter) (s : State) : State :=
  match i with
  | O => s
  | S j =>
      match sheet s !! j with
      | Some row =>
          if disabled row then s
          else set_sheet (<[j := mkRow (Some o) false false (rowClass row) (ringed row)]>
                            (sheet s)) s
      | None => s
      end
  end.

(** [clearSelection] unchecks the radio buttons of the question and hides
    the Clear button of its row.  For a number that has no row (0, or one
    above the number of questions) there are no radio buttons either, and
    the function ends in a TypeError at its last line with the page as it
    was. *)
Definition clearSelection (questionNumber : nat) (s : State) : State :=
  match questionNumber with
  | O => s
  | S j =>
      match sheet s !! j with
      | Some row =>
          set_sheet (<[j := mkRow None (disabled row) true (rowClass row) (ringed row)]>
                        (sheet s)) s
      | None => s
      end
  end.

(** A click on the Clear button of question [i], which is possible only
    while the button is shown. *)
Definition clickClear (i : nat) (s : State) : State :=
  match i with
  | O => s
  | S j =>
      match sheet s !! j with
      | Some row => if clearHidden row then s else clearSelection i s
      | None => s
      end
  end.

(** ** Grading *)

(** The counters of [gradeSheet] and the rows as graded so far. *)
Record Tally : Type := mkTally {
  correct : nat;
  incorrect : nat;
  unanswered : nat;
  rows : list Row
}.

(** What [row.querySelector(`label[for="q${i}-opt${correctAnswer}"]`)]
    gives.  The answer is pasted into a double-quoted attribute value of
    the selector: a double quote or a line break in it makes the selector
    ill-formed and [querySelector] throws; any other text is compared
    with the four labels of the row. *)
Inductive LabelLookup : Type :=
| LabelFound (o : Letter)
| NoLabel
| SelectorError.

Definition breaksSelector (c : ascii) : bool :=
  let n := nat_of_ascii c in
  (n =? 34)%nat || (n =? 10)%nat || (n =? 12)%nat || (n =? 13)%nat.

Definition queryCorrectLabel (correctAnswer : option string) : LabelLookup :=
  match correctAnswer with
  | None => NoLabel
  | Some a =>
      if existsb breaksSelector (list_ascii_of_string a) then SelectorError
      else match find (fun o => String.eqb (value o) a) letters with
           | Some o => LabelFound o
           | None => NoLabel
           end
  end.

(** [selectedOption.value === correctAnswer]; [undefined] equals no
    value. *)
Definition sameAnswer (o : Letter) (correctAnswer : option string) : bool :=
  match correctAnswer with
  | Some a => String.eqb (value o) a
  | None => false
  end.

Definition addRing (o : Letter) (rs : list Letter) : list Letter :=
  if decide (o ∈ rs) then rs else rs ++ [o].

(** One turn of the loop of [gradeSheet], for question [i].  [inr] is an
    exception, with the rows as they are when it is thrown: a missing row
    makes [row.classList] throw before anything is changed, an ill-formed
    selector throws after the row has been marked incorrect. *)
Definition gradeQuestion (key : gmap Z string) (i : nat) (t : Tally)
    : Tally + list Row :=
  match rows t !! (i - 1)%nat with
  | None => inr (rows t)
  | Some row =>
      let selectedOption := checked row in
      let correctAnswer := key !! Z.of_nat i in
      let put r := <[(i - 1)%nat := r]> (rows t) in
      match selectedOption with
      | None =>
          inl (mkTally (correct t) (incorrect t) (S (unanswered t))
                 (put (mkRow (checked row) true true None (ringed row))))
      | Some o =>
          if sameAnswer o correctAnswer then
            inl (mkTally (S (correct t)) (incorrect t) (unanswered t)
                   (put (mkRow (checked row) true true (Some ClsCorrect) (ringed row))))
          else
            match queryCorrectLabel correctAnswer with
            | SelectorError =>
                inr (put (mkRow (checked row) true true (Some ClsIncorrect) (ringed row)))
            | NoLabel =>
                inl (mkTally (correct t) (S (incorrect t)) (unanswered t)
                       (put (mkRow (checked row) true true (Some ClsIncorrect) (ringed row))))
            | LabelFound l =>
                inl (mkTally (correct t) (S (incorrect t)) (unanswered t)
                       (put (mkRow (checked row) true true (Some ClsIncorrect)
                               (addRing l (ringed row)))))
            end
      end
  end.

(** [for (let i = 1; i <= totalQuestions; i++)], over the questions still
    to do. *)
Fixpoint gradeLoop (key : gmap Z string) (todo : list nat) (t : Tally)
    : Tally + list Row :=
  match todo with
  | [] => inl t
  | i :: rest =>
      match gradeQuestion key i t with
      | inl t' => gradeLoop key rest t'
      | inr rs => inr rs
      end
  end.

(** [wrongMarks || 0] *)
Definition wrongOrZero (w : option Js.num) : Js.num :=
  match w with
  | Some x => if Js.truthy x then x else Js.ofZ 0
  | None => Js.ofZ 0
  end.

Definition scoreText (correctMarks wrongMarks : option Js.num)
    (totalQuestions correct incorrect : nat) : ScoreText :=
  match correctMarks with
  | Some cm =>
      let gained := Js.mul (Js.ofNat correct) cm in
      let lost := Js.mul (Js.ofNat incorrect) (wrongOrZero wrongMarks) in
      Weighted (Js.add gained lost) (Js.mul (Js.ofNat totalQuestions) cm) gained lost
  | None => Fraction correct totalQuestions
  end.

Definition gradeSheet (s : State) : outcome :=
  let s1 := set_isGraded true (hideError CheckArea (stopTimer s)) in
  match gradeLoop (answerKey s1) (seq 1 (totalQuestions s1))
          (mkTally 0 0 0 (sheet s1)) with
  | inr rs => Threw (set_sheet rs s1)
  | inl t =>
      Done (set_results
              (Some (mkResults
                       (scoreText (correctMarks s1) (wrongMarks s1) (totalQuestions s1)
                          (correct t) (incorrect t))
                       (correct t) (incorrect t) (unanswered t)))
              (set_sheet (rows t) s1))
  end.

(** [answerKey = {}; for (let i = 0; i < manualKey.length; i++)
    answerKey[i + 1] = manualKey[i]].  Every [i] of the loop is an index
    of [manualKey], so the character is there. *)
Definition manualAnswerKey (manualKey : string) : gmap Z string :=
  foldl (fun key i =>
           match Js.charAt manualKey i with
           | Some c => <[Z.of_nat (i + 1) := c]> key
           | None => key
           end)
        ∅ (seq 0 (String.length manualKey)).

Definition handleCheckAnswers (s : State) : outcome :=
  let manualKey := Js.toUpperCase (Js.trim (manualKeyInput s)) in
  let hasAnswerKey := nonEmpty manualKey || (0 <? size (answerKey s))%nat in
  if hasAnswerKey then
    if nonEmpty manualKey then
      if negb (String.length manualKey =? totalQuestions s)%nat then
        Done (showError CheckArea
                (MsgManualKeyLength (String.length manualKey) (totalQuestions s)) s)
      else gradeSheet (set_answerKey (manualAnswerKey manualKey) s)
    else if negb (size (answerKey s) =? totalQuestions s)%nat then
      Done (showError CheckArea
              (MsgUploadedKeyLength (size (answerKey s)) (totalQuestions s)) s)
    else gradeSheet s
  else Done (set_confirmModalHidden false s).

Definition freezeRow (row : Row) : Row :=
  mkRow (checked row) true true (rowClass row) (ringed row).

Definition handleConfirmProceed (s : State) : State :=
  set_checkBtnOnclick OnclickSave
    (showStatusMessage StatusCanSave
      (set_sheet (freezeRow <$> sheet s)
        (set_isGraded false
          (stopTimer
            (set_confirmModalHidden true s))))).

(** Of [saveResultAsPDF] only the status line belongs to the state: it is
    shown while the report is written and hidden afterwards. *)
Definition saveResultAsPDF (s : State) : State :=
  hideStatusMessage (showStatusMessage StatusGeneratingPdf s).

(** ** Answer keys from uploaded files *)

(** A cell of a row as the spreadsheet reader hands it over.  A numeric
    cell holds an integer here. *)
Inductive Cell : Type :=
| CUndefined
| CNull
| CString (s : string)
| CNumber (z : Z)
| CBool (b : bool).

(** The conversion to a string that both [parseInt(row[0], 10)] and
    [String(row[1])] begin with. *)
Definition toString (c : Cell) : string :=
  match c with
  | CUndefined => "undefined"
  | CNull => "null"
  | CString s => s
  | CNumber z => NilZero.string_of_int (Z.to_int z)
  | CBool true => "true"
  | CBool false => "false"
  end.

(** [row[n]]; past the end of the row it is [undefined]. *)
Definition field (row : list Cell) (n : nat) : Cell :=
  default CUndefined (row !! n).

(** [['A', 'B', 'C', 'D'].includes(answer)] *)
Definition includes (l : list string) (x : string) : bool :=
  existsb (String.eqb x) l.

(** The body of [data.forEach] in [parseAnswerKeyFromExcel], on the pair
    of [newKey] and [parsedCount].  [!isNaN(qNum)] is the [Some] case. *)
Definition excelRow (acc : gmap Z string * nat) (row : list Cell)
    : gmap Z string * nat :=
  let qNum := Js.parseInt (toString (field row 0)) in
  let answer := Js.toUpperCase (Js.trim (toString (field row 1))) in
  match qNum with
  | Some q =>
      if includes ["A"; "B"; "C"; "D"] answer
      then (<[q := answer]> (fst acc), S (snd acc))
      else acc
  | None => acc
  end.

Definition parseAnswerKeyFromExcel (data : list (list Cell)) (s : State) : State :=
  let '(newKey, parsedCount) := foldl excelRow (∅, 0%nat) data in
  if (0 <? parsedCount)%nat then
    showStatusMessage (StatusLoaded parsedCount)
      (hideError CheckArea
        (set_manualKeyInput EmptyString
          (set_answerKey newKey s)))
  else showError CheckArea MsgNoAnswersExcel s.

Definition isSeparator (c : ascii) : bool :=
  (Ascii.eqb c ":" || Ascii.eqb c "." || Ascii.eqb c "-")%bool.

Definition isAtoD (c : ascii) : bool :=
  let n := nat_of_ascii c in (65 <=? n)%nat && (n <=? 68)%nat.

(** [/(\d+)\s*[:.-]?\s*([A-D])\b/g] *)
Definition answerPattern : Regex.re :=
  Regex.Seq (Regex.Cap (Regex.Plus Js.isDigit))
    (Regex.Seq (Regex.Star Js.isWhiteSpace)
      (Regex.Seq (Regex.Opt isSeparator)
        (Regex.Seq (Regex.Star Js.isWhiteSpace)
          (Regex.Seq (Regex.Cap (Regex.Class isAtoD)) Regex.Boundary)))).

(** [while ((match = regex.exec(text)) !== null) { ... }], with the
    [lastIndex] of the regular expression, [newKey] and [parsedCount]
    passed along.  Every turn uses up one unit of [fuel]; [None] means
    the fuel ran out before [exec] gave [null].  Group 1 is a run of
    digits, so [parseInt] of it is a number. *)
Fixpoint textLoop (fuel : nat) (text : string) (lastIndex : nat)
    (newKey : gmap Z string) (parsedCount : nat) : option (gmap Z string * nat) :=
  match fuel with
  | O => None
  | S fuel' =>
      match Regex.exec answerPattern text lastIndex with
      | None => Some (newKey, parsedCount)
      | Some m =>
          match Js.parseInt (Regex.group m 1) with
          | Some q =>
              textLoop fuel' text (Regex.lastIndex m)
                (<[q := Js.toUpperCase (Regex.group m 2)]> newKey) (S parsedCount)
          | None => None
          end
      end
  end.

(** The loop is given one turn for every position of the text and one
    more; [textLoop_total] shows that this is enough. *)
Definition parseAnswerKeyFromText (text : string) (s : State) : option State :=
  match textLoop (S (String.length text)) text 0 ∅ 0 with
  | Some (newKey, parsedCount) =>
      Some (if (0 <? parsedCount)%nat then
              showStatusMessage (StatusLoaded parsedCount)
                (hideError CheckArea
                  (set_manualKeyInput EmptyString
                    (set_answerKey newKey s)))
            else showError CheckArea MsgNoAnswersPdf s)
  | None => None
  end.

(** ** The session as a transition system *)

Definition initialState : State :=
  mkState 0 None None ∅ false false EmptyString EmptyString EmptyString EmptyString
    None None None [] true None OnclickNone.

(** What the user can do with the page. *)
Inductive Event : Type :=
| TypeQuestionCount (v : string)
| TypeCorrectMarks (v : string)
| TypeWrongMarks (v : string)
| TypeManualKey (v : string)
| ClickGenerate
| ClickOption (i : nat) (o : Letter)
| ClickClear (i : nat)
| ClickCheck
| ClickReset
| ClickSavePdf
| ConfirmYes
| ConfirmNo
| UploadExcel (data : list (list Cell))
| UploadPdf (text : string).

(** A click on the check button runs the listener added at load time,
    [handleCheckAnswers], and then whatever [onclick] holds. *)
Definition clickCheck (s : State) : State :=
  let s1 := stateOf (handleCheckAnswers s) in
  match checkBtnOnclick s1 with
  | OnclickNone => s1
  | OnclickCheck => stateOf (handleCheckAnswers s1)
  | OnclickSave => saveResultAsPDF s1
  end.

Definition step (e : Event) (s : State) : State :=
  match e with
  | TypeQuestionCount v => set_questionCountInput v s
  | TypeCorrectMarks v => set_correctMarksInput v s
  | TypeWrongMarks v => set_wrongMarksInput v s
  | TypeManualKey v => set_manualKeyInput v s
  | ClickGenerate => generateOMRSheet s
  | ClickOption i o => clickOption i o s
  | ClickClear i => clickClear i s
  | ClickCheck => clickCheck s
  | ClickReset => resetEverything s
  | ClickSavePdf => saveResultAsPDF s
  | ConfirmYes => handleConfirmProceed s
  | ConfirmNo => set_confirmModalHidden true s
  | UploadExcel data => parseAnswerKeyFromExcel data s
  | UploadPdf text => default s (parseAnswerKeyFromText text s)
  end.

(** The states a session can be in. *)
Inductive reachable : State -> Prop :=
| reachable_initial : reachable initialState
| reachable_step e s : reachable s -> reachable (step e s).

(** Every question of the sheet has its row. *)
Definition sheetComplete (s : State) : Prop :=
  length (sheet s) = totalQuestions s.

(** ** Vocabulary of the specification *)

(** The three outcomes of a question. *)
Inductive Outcome : Type := Unanswered | Correct | Incorrect.

#[global] Instance Outcome_eq_dec : EqDecision Outcome.
Proof. solve_decision. Defined.

(** The outcome of question [i] as the specification words it: nothing
    selected is unanswered; a selection equal to the key entry of [i] is
    correct; any other selection, also one for which the key has no
    entry, is incorrect. *)
Definition classify (key : gmap Z string) (selected : option Letter) (i : nat)
    : Outcome :=
  match selected with
  | None => Unanswered
  | Some o =>
      match key !! Z.of_nat i with
      | Some a => if decide (value o = a) then Correct else Incorrect
      | None => Incorrect
      end
  end.

(** The option selected for question [i] on a list of rows. *)
Definition selectedIn (rs : list Row) (i : nat) : option Letter :=
  rs !! (i - 1)%nat ≫= checked.

(** How many of the questions [todo] have outcome [x]. *)
Definition countOutcome (key : gmap Z string) (rs : list Row) (todo : list nat)
    (x : Outcome) : nat :=
  length (filter (fun i => classify key (selectedIn rs i) i = x) todo).

(** The class a graded row carries for an outcome. *)
Definition classOf (x : Outcome) : option RowClass :=
  match x with
  | Correct => Some ClsCorrect
  | Incorrect => Some ClsIncorrect
  | Unanswered => None
  end.

(** The key entry of question [i], if there is one, holds no character
    that makes the selector of [queryCorrectLabel] ill-formed. *)
Definition selectorSafeAt (key : gmap Z string) (i : nat) : bool :=
  match key !! Z.of_nat i with
  | Some a => negb (existsb breaksSelector (list_ascii_of_string a))
  | None => true
  end.

(** The same for all of the questions [1..n]. *)
Definition keySelectorSafe (key : gmap Z string) (n : nat) : bool :=
  forallb (selectorSafeAt key) (seq 1 n).

(** Row [i] after grading: frozen, with the class of its outcome, and
    with the ring on the label of the correct option when the selection
    was wrong and the key names one of the four options. *)
Definition gradedRow (key : gmap Z string) (i : nat) (row : Row) : Row :=
  let x := classify key (checked row) i in
  mkRow (checked row) true true (classOf x)
    (match x, queryCorrectLabel (key !! Z.of_nat i) with
     | Incorrect, LabelFound l => addRing l (ringed row)
     | _, _ => ringed row
     end).

(** The counters after one more question with outcome [x]. *)
Definition countIn (x : Outcome) (t : Tally) (rs : list Row) : Tally :=
  match x with
  | Correct => mkTally (S (correct t)) (incorrect t) (unanswered t) rs
  | Incorrect => mkTally (correct t) (S (incorrect t)) (unanswered t) rs
  | Unanswered => mkTally (correct t) (incorrect t) (S (unanswered t)) rs
  end.

(** Two keys with the same entries for the questions [1..n]. *)
Definition agreeUpTo (n : nat) (key key' : gmap Z string) : Prop :=
  forall i : nat, (1 <= i <= n)%nat -> key' !! Z.of_nat i = key !! Z.of_nat i.

(** The same handler outcome, with [f] applied to the state. *)
Definition mapOutcome (f : State -> State) (o : outcome) : outcome :=
  match o with
  | Done s => Done (f s)
  | Threw s => Threw (f s)
  end.

(** ** Sample sessions *)

(** The state after the events [es], in order, from [s]. *)
Definition run (es : list Event) (s : State) : State :=
  foldl (fun s e => step e s) s es.

(** A sheet of four questions, four marks for a correct answer and one
    mark entered as the penalty, with A, A, nothing and D selected. *)
Definition sampleSheet : State :=
  run [TypeQuestionCount "4"; TypeCorrectMarks "4"; TypeWrongMarks "1"; ClickGenerate;
       ClickOption 1 OptA; ClickOption 2 OptA; ClickOption 4 OptD] initialState.

(** The same with the key A, B, C, D uploaded as a spreadsheet. *)
Definition sampleUploaded : State :=
  step (UploadExcel [[CNumber 1; CString "A"]; [CNumber 2; CString "B"];
                     [CNumber 3; CString "C"]; [CNumber 4; CString "D"]]) sampleSheet.

(** The same with the key typed into the manual-key field. *)
Definition sampleTyped : State := step (TypeManualKey "abcd") sampleSheet.

(** A sheet of four questions with a manual key that is four characters
    long only with the blanks around it. *)
Definition samplePadded : State := step (TypeManualKey " ab ") sampleSheet.

(** A stored key of four answers and a manual key of three. *)
Definition sampleBoth : State := step (TypeManualKey "dcb") sampleUploaded.

(** The key a sequence of accepted (question, answer) pairs leaves when
    each pair is stored in turn: for a question that occurs more than
    once the last pair stands. *)
Definition keyOfPairs (pairs : list (Z * string)) : gmap Z string :=
  foldl (fun key p => <[fst p := snd p]> key) ∅ pairs.

(** The pair a row of a spreadsheet contributes, as the specification
    words it: the first field has to parse as an integer and the second,
    trimmed and upper-cased, has to be one of A, B, C and D. *)
Definition acceptedPair (row : list Cell) : option (Z * string) :=
  match Js.parseInt (toString (field row 0)) with
  | Some q =>
      let a := Js.toUpperCase (Js.trim (toString (field row 1))) in
      if decide (a ∈ ["A"; "B"; "C"; "D"]) then Some (q, a) else None
  | None => None
  end.

(** The state a successful upload of [pairs] leaves. *)
Definition keyLoaded (pairs : list (Z * string)) (s : State) : State :=
  showStatusMessage (StatusLoaded (length pairs))
    (hideError CheckArea
      (set_manualKeyInput EmptyString
        (set_answerKey (keyOfPairs pairs) s))).

(** The sheet of the sample session at the moment the confirmation
    dialog has opened, no key being there. *)
Definition sampleAsked : State := step ClickCheck sampleSheet.

(** What it means for a regular expression to match the text between
    two positions, and which groups it captures on the way.  This is the
    declarative reading of the constructs; [Regex.matchRe] searches for
    such a match. *)
Inductive Matches (text : list ascii) : Regex.re -> nat -> nat -> Regex.captures -> Prop :=
| Matches_Class p i :
    Regex.inClass p text i = true ->
    Matches text (Regex.Class p) i (S i) []
| Matches_Star p i n :
    (forall j, (i <= j < i + n)%nat -> Regex.inClass p text j = true) ->
    Matches text (Regex.Star p) i (i + n) []
| Matches_Plus p i n :
    (forall j, (i <= j < S i + n)%nat -> Regex.inClass p text j = true) ->
    Matches text (Regex.Plus p) i (S i + n) []
| Matches_Opt_some p i :
    Regex.inClass p text i = true ->
    Matches text (Regex.Opt p) i (S i) []
| Matches_Opt_none p i :
    Matches text (Regex.Opt p) i i []
| Matches_Boundary i :
    Regex.atBoundary text i = true ->
    Matches text Regex.Boundary i i []
| Matches_Cap r i j cs :
    Matches text r i j cs ->
    Matches text (Regex.Cap r) i j (cs ++ [(i, j)])
| Matches_Seq r1 r2 i j k cs1 cs2 :
    Matches text r1 i j cs1 ->
    Matches text r2 j k cs2 ->
    Matches text (Regex.Seq r1 r2) i k (cs1 ++ cs2).

(** The results [exec] gives one after the other, each search starting
    where the match before it ended, until it gives [null]. *)
Inductive Scan (text : string) : nat -> list Regex.result -> Prop :=
| Scan_done from :
    Regex.exec answerPattern text from = None ->
    Scan text from []
| Scan_more from m ms :
    Regex.exec answerPattern text from = Some m ->
    Scan text (Regex.lastIndex m) ms ->
    Scan text from (m :: ms).

(** The question number and the letter of a match. *)
Definition entryOf (m : Regex.result) : Z * string :=
  (Js.digitsValue (list_ascii_of_string (Regex.group m 1)), Regex.group m 2).

(** A match of the answer pattern in [text]: it is not empty and lies
    inside the text, group 1 is the run of digits it starts with and
    group 2 the letter from A to D it ends with. *)
Definition answerMatch (text : string) (m : Regex.result) : Prop :=
  (Regex.index m < Regex.lastIndex m <= String.length text)%nat /\
  exists ds a,
    Regex.groups m = [string_of_list_ascii ds; a] /\
    ds <> [] /\ forallb Js.isDigit ds = true /\
    a ∈ ["A"; "B"; "C"; "D"] /\
    ds = take (length ds) (drop (Regex.index m) (list_ascii_of_string text)) /\
    list_ascii_of_string a
    = take 1 (drop (Regex.lastIndex m - 1) (list_ascii_of_string text)).


(** ** The timer display *)

(** [Number.prototype.toString] on an integer. *)
Definition decimal (z : Z) : string := NilZero.string_of_int (Z.to_int z).

(** [s.padStart(n, c)] for a one-character filler. *)
Definition padStart (n : nat) (c : ascii) (s : string) : string :=
  String.append (string_of_list_ascii (replicate (n - String.length s) c)) s.

(** [formatTime(ms)].  [Math.floor] of a quotient is [Z.div] and [%] is
    the remainder with the sign of the dividend, [Z.rem]. *)
Definition formatTime (ms : Z) : string :=
  let totalSeconds := ms / 1000 in
  let minutes := padStart 2 "0" (decimal (totalSeconds / 60)) in
  let seconds := padStart 2 "0" (decimal (Z.rem totalSeconds 60)) in
  String.append minutes (String ":" seconds).

(** What [stopTimer] writes beside the score, for the clock reading [now]
    and the [startTime] that [startTimer] stored. *)
Definition timeTaken (now startTime : Z) : string :=
  String.append "Time Taken: " (formatTime (now - startTime)).

(** ** The answer pattern, character by character *)

(** The classes of characters the pattern speaks of, written out. *)
Definition digitChars : list ascii := list_ascii_of_string "0123456789".

Definition blankChars : list ascii := ascii_of_nat <$> [9; 10; 11; 12; 13; 32]%nat.

Definition separatorChars : list ascii := list_ascii_of_string ":.-".

Definition answerChars : list ascii := list_ascii_of_string "ABCD".

(** The letters and digits, of which the specification says that none may
    go on after the letter of an answer. *)
Definition alphanumericChars : list ascii :=
  list_ascii_of_string "abcdefghijklmnopqrstuvwxyzABCDEFGHIJKLMNOPQRSTUVWXYZ0123456789".

(** The word characters of [\b]: the letters, the digits and the
    underscore. *)
Definition wordChars : list ascii := alphanumericChars ++ ["_"%char].

(** The text [l] has a character of [set] at position [i]. *)
Definition charIn (set : list ascii) (l : list ascii) (i : nat) : Prop :=
  exists c, l !! i = Some c /\ c ∈ set.

(** An occurrence of the pattern in [l] from position [i] to position
    [j]: one or more digits; then white space, at most one separator and
    white space again, each of which may be missing; then one letter from
    A to D, after which the text ends or goes on with a character that is
    not in [after].  [q] is the number the digits denote and [a] the
    letter. *)
Definition Occurrence (after : list ascii) (l : list ascii) (i j : nat)
    (q : Z) (a : string) : Prop :=
  exists d n1 o n2 c,
    (forall t, (i <= t < i + S d)%nat -> charIn digitChars l t) /\
    (forall t, (i + S d <= t < i + S d + n1)%nat -> charIn blankChars l t) /\
    (o <= 1)%nat /\
    (o = 1%nat -> charIn separatorChars l (i + S d + n1)) /\
    (forall t, (i + S d + n1 + o <= t < i + S d + n1 + o + n2)%nat ->
       charIn blankChars l t) /\
    l !! (i + S d + n1 + o + n2)%nat = Some c /\ c ∈ answerChars /\
    j = S (i + S d + n1 + o + n2) /\
    (forall c', l !! j = Some c' -> c' ∉ after) /\
    q = Js.digitsValue (take (S d) (drop i l)) /\
    a = String c EmptyString.

(** One occurrence that a scan finds: where it starts and ends, and the
    question number and the letter it gives. *)
Record Found : Type := mkFound {
  foundFrom : nat;
  foundTo : nat;
  question : Z;
  letter : string
}.

Definition pairOf (f : Found) : Z * string := (question f, letter f).

(** The scan of a text from left to right, from position [from] on: each
    time the occurrence with the leftmost start at or after the current
    position is taken and the scan goes on where that occurrence ends;
    it is over when no occurrence starts in the rest of the text. *)
Inductive LeftmostScan (after : list ascii) (l : list ascii) : nat -> list Found -> Prop :=
| LeftmostScan_over from :
    (forall i j q a, (from <= i)%nat -> ~ Occurrence after l i j q a) ->
    LeftmostScan after l from []
| LeftmostScan_found from i j q a rest :
    (from <= i)%nat ->
    Occurrence after l i j q a ->
    (forall i' j' q' a', (from <= i' < i)%nat -> ~ Occurrence after l i' j' q' a') ->
    LeftmostScan after l j rest ->
    LeftmostScan after l from (mkFound i j q a :: rest).

(** The occurrence a result of [exec] stands for. *)
Definition foundOf (m : Regex.result) : Found :=
  mkFound (Regex.index m) (Regex.lastIndex m) (fst (entryOf m)) (snd (entryOf m)).

(** ** Where grading stops *)

(** Question [i] stops [gradeSheet]: an option is selected for it and its
    key entry holds a character that makes the selector of
    [queryCorrectLabel] ill-formed (such an entry equals no option, so
    the selection is wrong and the label is looked up). *)
Definition stopsGrading (key : gmap Z string) (rs : list Row) (i : nat) : bool :=
  match selectedIn rs i, key !! Z.of_nat i with
  | Some _, Some a => existsb breaksSelector (list_ascii_of_string a)
  | _, _ => false
  end.

(** The row of the question at which grading stopped. *)
Definition stoppedRow (row : Row) : Row :=
  mkRow (checked row) true true (Some ClsIncorrect) (ringed row).

(** The sample sheet with a manual key of four characters: A, a double
    quote, C and D. *)
Definition sampleQuoted : State :=
  step (TypeManualKey (String "A" (String (ascii_of_nat 34) "CD"))) sampleSheet.

(** The state [handleCheckAnswers] hands to [gradeSheet] in that session:
    the key is the manual key. *)
Definition sampleQuotedKey : State :=
  set_answerKey (manualAnswerKey (Js.toUpperCase (Js.trim (manualKeyInput sampleQuoted))))
    sampleQuoted.

(** ** What holds throughout a session *)

(** The Clear button of a row is shown only while the row has a selection
    that can still be changed. *)
Definition clearShownRight (row : Row) : Prop :=
  clearHidden row = false -> disabled row = false /\ is_Some (checked row).

(** What every state of a session satisfies: at most 200 questions; marks
    for a wrong answer that are not positive; a stopped timer once the
    sheet is graded; Clear buttons shown only where they belong; and a key
    whose entries are single characters. *)
Definition sessionInvariant (s : State) : Prop :=
  (totalQuestions s <= 200)%nat /\
  (forall w, wrongMarks s = Some w -> Js.isPositive w = false) /\
  (isGraded s = true -> timerRunning s = false) /\
  Forall clearShownRight (sheet s) /\
  (forall q a, answerKey s !! q = Some a -> String.length a = 1%nat).

(** * Properties *)

(** ** The built-ins on sample inputs *)

Example parseInt_samples :
  Js.parseInt " 12abc" = Some 12 /\ Js.parseInt "-7" = Some (-7) /\
  Js.parseInt "x1" = None /\ Js.parseInt EmptyString = None /\
  Js.parseInt "3.9" = Some 3 /\ Js.parseInt (toString (CNumber 15)) = Some 15 /\
  Js.parseInt (toString CUndefined) = None.
Proof. repeat split. Qed.

Example trim_samples :
  Js.trim "  ab c  " = "ab c" /\ Js.trim "   " = EmptyString /\
  Js.toUpperCase "aB-z1" = "AB-Z1".
Proof. repeat split. Qed.

Example parseFloat_samples :
  Js.parseFloat "4" = Js.Fin (4 # 1) /\ Js.parseFloat "-1" = Js.Fin (-1 # 1) /\
  Js.parseFloat "abc" = Js.NaN /\ Js.parseFloat EmptyString = Js.NaN /\
  Js.parseFloat "0.25" = Js.Fin (25 # 100) /\ Js.parseFloat ".5" = Js.Fin (5 # 10).
Proof. repeat split. Qed.

Example exec_samples :
  Regex.exec answerPattern "xx 12 :  C" 0
  = Some (Regex.mkResult 3 10 ["12"; "C"]) /\
  Regex.exec answerPattern "7 D_ 3 : Bx 1a" 0 = None /\
  Regex.exec answerPattern "4.-C 12A" 0 = Some (Regex.mkResult 5 8 ["12"; "A"]).
Proof. repeat split. Qed.

(** ** Grading *)

Lemma classify_selected key o i :
  classify key (Some o) i = if sameAnswer o (key !! Z.of_nat i) then Correct else Incorrect.
Proof.
  unfold classify, sameAnswer. destruct (key !! Z.of_nat i) as [a|]; [|done].
  destruct (String.eqb_spec (value o) a); [by rewrite decide_True|by rewrite decide_False].
Qed.

(** One turn of the grading loop that does not throw counts the question
    under its outcome and leaves its row graded. *)
Lemma gradeQuestion_inl key i t t' :
  gradeQuestion key i t = inl t' ->
  exists row,
    rows t !! (i - 1)%nat = Some row /\
    t' = countIn (classify key (checked row) i) t
           (<[(i - 1)%nat := gradedRow key i row]> (rows t)).
Proof.
  unfold gradeQuestion, gradedRow.
  destruct (rows t !! (i - 1)%nat) as [row|] eqn:Hrow; [|discriminate].
  intros H. exists row. split; [done|].
  destruct (checked row) as [o|] eqn:Hsel.
  - rewrite classify_selected.
    destruct (sameAnswer o (key !! Z.of_nat i)); simpl.
    + by inversion H.
    + destruct (queryCorrectLabel (key !! Z.of_nat i)); by inversion H.
  - by inversion H.
Qed.

Lemma queryCorrectLabel_safe key i :
  selectorSafeAt key i = true -> queryCorrectLabel (key !! Z.of_nat i) <> SelectorError.
Proof.
  unfold selectorSafeAt, queryCorrectLabel.
  destruct (key !! Z.of_nat i) as [a|]; [|done].
  destruct (existsb breaksSelector (list_ascii_of_string a)); [done|].
  intros _. by destruct (find _ letters).
Qed.

(** A turn throws only for a missing row or an ill-formed selector. *)
Lemma gradeQuestion_total key i t row :
  rows t !! (i - 1)%nat = Some row ->
  selectorSafeAt key i = true ->
  exists t', gradeQuestion key i t = inl t'.
Proof.
  intros Hrow Hsafe%queryCorrectLabel_safe. unfold gradeQuestion. rewrite Hrow.
  destruct (checked row) as [o|]; [|eauto].
  destruct (sameAnswer o (key !! Z.of_nat i)); [eauto|].
  destruct (queryCorrectLabel (key !! Z.of_nat i)); [eauto|eauto|done].
Qed.

Lemma countOutcome_cons key rs i todo x :
  countOutcome key rs (i :: todo) x =
  ((if decide (classify key (selectedIn rs i) i = x) then 1 else 0)
   + countOutcome key rs todo x)%nat.
Proof.
  unfold countOutcome. rewrite filter_cons.
  destruct (decide (classify key (selectedIn rs i) i = x)); done.
Qed.

Lemma countOutcome_ext key rs rs' todo x :
  (forall i, i ∈ todo -> selectedIn rs i = selectedIn rs' i) ->
  countOutcome key rs todo x = countOutcome key rs' todo x.
Proof.
  induction todo as [|i todo IH]; intros H; [done|].
  rewrite !countOutcome_cons, IH, (H i); [done|set_solver|set_solver].
Qed.

(** Every question is counted under exactly one outcome. *)
Lemma countOutcome_total key rs todo :
  (countOutcome key rs todo Correct + countOutcome key rs todo Incorrect
   + countOutcome key rs todo Unanswered)%nat = length todo.
Proof.
  induction todo as [|i todo IH]; [done|].
  rewrite !countOutcome_cons. simpl length. rewrite <- IH.
  destruct (classify key (selectedIn rs i) i); simpl; lia.
Qed.

Lemma countIn_rows x t rs : rows (countIn x t rs) = rs.
Proof. by destruct x. Qed.

Lemma countIn_counts x t rs :
  correct (countIn x t rs) = (correct t + if decide (x = Correct) then 1 else 0)%nat /\
  incorrect (countIn x t rs) = (incorrect t + if decide (x = Incorrect) then 1 else 0)%nat /\
  unanswered (countIn x t rs) = (unanswered t + if decide (x = Unanswered) then 1 else 0)%nat.
Proof. destruct x; simpl; repeat split; lia. Qed.

Lemma selectedIn_insert_ne rs j r i :
  (i - 1)%nat <> j -> selectedIn (<[j := r]> rs) i = selectedIn rs i.
Proof. intros H. unfold selectedIn. by rewrite list_lookup_insert_ne. Qed.

(** What a run of the grading loop over the questions [a .. a + m - 1]
    that does not throw has done. *)
Lemma gradeLoop_inl key m : forall a t t',
  (1 <= a)%nat ->
  gradeLoop key (seq a m) t = inl t' ->
  length (rows t') = length (rows t) /\
  correct t' = (correct t + countOutcome key (rows t) (seq a m) Correct)%nat /\
  incorrect t' = (incorrect t + countOutcome key (rows t) (seq a m) Incorrect)%nat /\
  unanswered t' = (unanswered t + countOutcome key (rows t) (seq a m) Unanswered)%nat /\
  (forall i, (a <= i < a + m)%nat ->
     exists row, rows t !! (i - 1)%nat = Some row /\
                 rows t' !! (i - 1)%nat = Some (gradedRow key i row)) /\
  (forall j, ~ (a - 1 <= j < a - 1 + m)%nat -> rows t' !! j = rows t !! j).
Proof.
  induction m as [|m IH]; intros a t t' Ha H; simpl in H.
  - inversion H; subst t'. unfold countOutcome; simpl.
    repeat split; lia.
  - destruct (gradeQuestion key a t) as [t1|] eqn:Hq; [|discriminate].
    apply gradeQuestion_inl in Hq as (row & Hrow & ->).
    apply IH in H as (Hlen & Hc & Hi & Hu & Hin & Hout); [|lia].
    rewrite countIn_rows in *. rewrite length_insert in Hlen.
    set (x := classify key (checked row) a) in *.
    destruct (countIn_counts x t (<[(a - 1)%nat:=gradedRow key a row]> (rows t)))
      as (Hc1 & Hi1 & Hu1).
    assert (Hsel : selectedIn (rows t) a = checked row)
      by (unfold selectedIn; by rewrite Hrow).
    assert (Hext : forall y,
      countOutcome key (<[(a - 1)%nat:=gradedRow key a row]> (rows t)) (seq (S a) m) y
      = countOutcome key (rows t) (seq (S a) m) y).
    { intros y. apply countOutcome_ext. intros i Hi'%elem_of_seq.
      apply selectedIn_insert_ne. lia. }
    rewrite !Hext in *.
    change (seq a (S m)) with (a :: seq (S a) m).
    rewrite !countOutcome_cons, Hsel. fold x.
    split; [done|]. split; [lia|]. split; [lia|]. split; [lia|]. split.
    + intros i Hi'. destruct (decide (i = a)) as [->|Hne].
      * exists row. split; [done|]. rewrite Hout by lia.
        apply list_lookup_insert_eq. eapply lookup_lt_Some; eauto.
      * destruct (Hin i) as (row' & Hr' & Hg); [lia|].
        rewrite list_lookup_insert_ne in Hr' by lia. eauto.
    + intros j Hj. rewrite Hout by lia. apply list_lookup_insert_ne. lia.
Qed.

(** The loop runs to its end when every question has its row and a key
    entry that does not break the selector. *)
Lemma gradeLoop_total key m : forall a t,
  (1 <= a)%nat ->
  (a - 1 + m <= length (rows t))%nat ->
  (forall i, (a <= i < a + m)%nat -> selectorSafeAt key i = true) ->
  exists t', gradeLoop key (seq a m) t = inl t'.
Proof.
  induction m as [|m IH]; intros a t Ha Hlen Hsafe; simpl; [eauto|].
  destruct (lookup_lt_is_Some_2 (rows t) (a - 1)%nat) as [row Hrow]; [lia|].
  destruct (gradeQuestion_total key a t row Hrow) as [t1 Hq]; [apply Hsafe; lia|].
  rewrite Hq. apply gradeQuestion_inl in Hq as (row' & _ & ->).
  apply IH; [lia| |intros; apply Hsafe; lia].
  rewrite countIn_rows, length_insert. lia.
Qed.

Lemma gradeQuestion_agree key key' i t :
  key' !! Z.of_nat i = key !! Z.of_nat i ->
  gradeQuestion key' i t = gradeQuestion key i t.
Proof. intros H. unfold gradeQuestion. by rewrite H. Qed.

(** The loop reads the key at the questions it grades and nowhere else. *)
Lemma gradeLoop_agree key key' todo : forall t,
  (forall i, i ∈ todo -> key' !! Z.of_nat i = key !! Z.of_nat i) ->
  gradeLoop key' todo t = gradeLoop key todo t.
Proof.
  induction todo as [|i todo IH]; intros t H; simpl; [done|].
  rewrite (gradeQuestion_agree key key') by (apply H; set_solver).
  destruct (gradeQuestion key i t); [|done]. apply IH. intros; apply H; set_solver.
Qed.

Lemma keySelectorSafe_at key n i :
  keySelectorSafe key n = true -> (1 <= i <= n)%nat -> selectorSafeAt key i = true.
Proof.
  unfold keySelectorSafe. rewrite forallb_forall. intros H Hi.
  apply H, in_seq. lia.
Qed.

Lemma gradeSheet_completes s :
  sheetComplete s ->
  keySelectorSafe (answerKey s) (totalQuestions s) = true ->
  exists s', gradeSheet s = Done s'.
Proof.
  intros Hrows Hkey. unfold gradeSheet. simpl.
  destruct (gradeLoop_total (answerKey s) (totalQuestions s) 1
              (mkTally 0 0 0 (sheet s))) as [t Ht]; [lia| | |].
  - simpl. rewrite Hrows. lia.
  - intros i Hi. eapply keySelectorSafe_at; [done|lia].
  - rewrite Ht. eauto.
Qed.

Lemma gradeSheet_Done s s' :
  gradeSheet s = Done s' ->
  exists t,
    gradeLoop (answerKey s) (seq 1 (totalQuestions s)) (mkTally 0 0 0 (sheet s)) = inl t /\
    results s' = Some (mkResults
                         (scoreText (correctMarks s) (wrongMarks s) (totalQuestions s)
                            (correct t) (incorrect t))
                         (correct t) (incorrect t) (unanswered t)) /\
    sheet s' = rows t /\
    totalQuestions s' = totalQuestions s /\ answerKey s' = answerKey s /\
    isGraded s' = true /\ timerRunning s' = false /\ checkError s' = None.
Proof.
  unfold gradeSheet. simpl.
  destruct (gradeLoop _ _ _) as [t|] eqn:Ht; [|discriminate].
  intros [= <-]. exists t. by repeat split.
Qed.

(** On a sheet that has all its rows, with a key whose entries for the
    questions hold no double quote and no line break, grading gives every
    question [1..totalQuestions] exactly one outcome, the one [classify]
    names: unanswered when nothing is selected, correct when the
    selection equals the key entry of the question, incorrect otherwise,
    also when the key has no entry for it.  The row of the question is
    marked with that outcome and the three counters count the questions
    of each outcome.  Key entries of other indices are never read: with a
    key that differs only there, grading ends the same way with the same
    sheet and results. *)
Theorem grading_classifies (s : State)
    (Hrows : sheetComplete s)
    (Hkey : keySelectorSafe (answerKey s) (totalQuestions s) = true) :
  exists s' r,
    gradeSheet s = Done s' /\ results s' = Some r /\
    (forall i, (1 <= i <= totalQuestions s)%nat ->
       exists row,
         sheet s !! (i - 1)%nat = Some row /\
         sheet s' !! (i - 1)%nat = Some (gradedRow (answerKey s) i row)) /\
    unansweredCount r
      = countOutcome (answerKey s) (sheet s) (seq 1 (totalQuestions s)) Unanswered /\
    correctCount r
      = countOutcome (answerKey s) (sheet s) (seq 1 (totalQuestions s)) Correct /\
    incorrectCount r
      = countOutcome (answerKey s) (sheet s) (seq 1 (totalQuestions s)) Incorrect /\
    (forall key', agreeUpTo (totalQuestions s) (answerKey s) key' ->
       gradeSheet (set_answerKey key' s) = mapOutcome (set_answerKey key') (gradeSheet s)).
Proof.
  destruct (gradeSheet_completes s Hrows Hkey) as [s' Hs'].
  destruct (gradeSheet_Done s s' Hs') as (t & Ht & Hr & Hsheet & _).
  destruct (gradeLoop_inl _ _ _ _ _ (le_n 1) Ht) as (_ & Hc & Hi & Hu & Hin & _).
  simpl in *.
  eexists s', _. split; [done|]. split; [exact Hr|].
  split; [|split; [done|split; [done|split; [done|]]]].
  - intros i Hi'. rewrite Hsheet. apply Hin. lia.
  - intros key' Hagree. unfold gradeSheet. simpl.
    rewrite (gradeLoop_agree (answerKey s) key').
    + by destruct (gradeLoop _ _ _).
    + intros i Hi'%elem_of_seq. apply Hagree. lia.
Qed.

(** The sample sheet with its uploaded key meets both hypotheses. *)
Lemma grading_classifies_witness :
  sheetComplete sampleUploaded /\
  keySelectorSafe (answerKey sampleUploaded) (totalQuestions sampleUploaded) = true /\
  exists s' r,
    gradeSheet sampleUploaded = Done s' /\ results s' = Some r /\
    correctCount r = 2%nat /\ incorrectCount r = 1%nat /\ unansweredCount r = 1%nat.
Proof.
  assert (H1 : sheetComplete sampleUploaded) by reflexivity.
  assert (H2 : keySelectorSafe (answerKey sampleUploaded)
                 (totalQuestions sampleUploaded) = true) by reflexivity.
  destruct (grading_classifies sampleUploaded H1 H2)
    as (s' & r & Hd & Hr & _ & Hu & Hc & Hi & _).
  split; [exact H1|]. split; [exact H2|].
  exists s', r. rewrite Hu, Hc, Hi. repeat split; assumption.
Defined.

(** C9. A grading pass runs to its end on a complete sheet whose key
    does not break the selector, and after any pass that ran to its end
    the three counts add up to the number of questions. *)
Theorem counts_partition (s : State) :
  (sheetComplete s ->
   keySelectorSafe (answerKey s) (totalQuestions s) = true ->
   exists s', gradeSheet s = Done s') /\
  (forall s', gradeSheet s = Done s' ->
     exists r,
       results s' = Some r /\
       (correctCount r + incorrectCount r + unansweredCount r)%nat = totalQuestions s).
Proof.
  split; [apply gradeSheet_completes|].
  intros s' (t & Ht & Hr & _)%gradeSheet_Done.
  destruct (gradeLoop_inl _ _ _ _ _ (le_n 1) Ht) as (_ & Hc & Hi & Hu & _).
  eexists. split; [exact Hr|]. simpl in *. rewrite Hc, Hi, Hu.
  rewrite countOutcome_total. apply length_seq.
Qed.

(** On the sample sheet the pass ends and counts four questions. *)
Lemma counts_partition_witness :
  exists s' r,
    gradeSheet sampleUploaded = Done s' /\ results s' = Some r /\
    (correctCount r + incorrectCount r + unansweredCount r)%nat = 4%nat.
Proof.
  destruct (counts_partition sampleUploaded) as [Hrun Hsum].
  destruct Hrun as [s' Hs']; [reflexivity|reflexivity|].
  destruct (Hsum s' Hs') as (r & Hr & Hn).
  exists s', r. repeat split; assumption.
Defined.

Lemma parseFloat_empty : Js.parseFloat EmptyString = Js.NaN.
Proof. reflexivity. Qed.

Lemma isPositive_Fin q : (0 < q)%Q -> Js.isPositive (Js.Fin q) = true.
Proof.
  intros H. unfold Js.isPositive.
  apply Qgt_alt in H. by rewrite H.
Qed.

(** What [generateOMRSheet] stores when the question count is valid. *)
Lemma generate_configures c n :
  Js.parseInt (questionCountInput c) = Some n -> 1 <= n <= 200 ->
  totalQuestions (generateOMRSheet c) = Z.to_nat n /\
  correctMarks (generateOMRSheet c) = readMarks (correctMarksInput c) /\
  wrongMarks (generateOMRSheet c) = normalizeWrongMarks (readMarks (wrongMarksInput c)) /\
  sheet (generateOMRSheet c) = resetRow <$> (createQuestionRow <$> seq 1 (Z.to_nat n)).
Proof.
  intros Hn Hr. unfold generateOMRSheet. rewrite Hn.
  replace ((n <? 1) || (200 <? n)) with false by lia. done.
Qed.

(** A positive number entered as the wrong marks is stored negated. *)
Lemma generate_negates_wrongMarks c n q :
  Js.parseInt (questionCountInput c) = Some n -> 1 <= n <= 200 ->
  Js.parseFloat (wrongMarksInput c) = Js.Fin q -> (0 < q)%Q ->
  wrongMarks (generateOMRSheet c) = Some (Js.Fin (- q)).
Proof.
  intros Hn Hr Hq Hpos.
  destruct (generate_configures c n Hn Hr) as (_ & _ & -> & _).
  unfold readMarks. destruct (wrongMarksInput c) eqn:Hw.
  - rewrite parseFloat_empty in Hq. discriminate.
  - simpl nonEmpty. cbv iota. rewrite Hq. unfold normalizeWrongMarks.
    by rewrite isPositive_Fin.
Qed.

(** The results panel after a pass that ran to its end. *)
Lemma gradeSheet_counts s s' :
  gradeSheet s = Done s' ->
  exists r,
    results s' = Some r /\
    correctCount r
      = countOutcome (answerKey s) (sheet s) (seq 1 (totalQuestions s)) Correct /\
    incorrectCount r
      = countOutcome (answerKey s) (sheet s) (seq 1 (totalQuestions s)) Incorrect /\
    unansweredCount r
      = countOutcome (answerKey s) (sheet s) (seq 1 (totalQuestions s)) Unanswered /\
    score r = scoreText (correctMarks s) (wrongMarks s) (totalQuestions s)
                (correctCount r) (incorrectCount r).
Proof.
  intros (t & Ht & Hr & _)%gradeSheet_Done.
  destruct (gradeLoop_inl _ _ _ _ _ (le_n 1) Ht) as (_ & Hc & Hi & Hu & _).
  eexists. split; [exact Hr|]. simpl in *. by rewrite Hc, Hi, Hu.
Qed.

Lemma gradeSheet_weighted s cm s' :
  correctMarks s = Some cm -> gradeSheet s = Done s' ->
  exists r,
    results s' = Some r /\
    score r =
      Weighted
        (Js.add (Js.mul (Js.ofNat (correctCount r)) cm)
                (Js.mul (Js.ofNat (incorrectCount r)) (wrongOrZero (wrongMarks s))))
        (Js.mul (Js.ofNat (totalQuestions s)) cm)
        (Js.mul (Js.ofNat (correctCount r)) cm)
        (Js.mul (Js.ofNat (incorrectCount r)) (wrongOrZero (wrongMarks s))).
Proof.
  intros Hcm (t & _ & Hr & _)%gradeSheet_Done.
  eexists. split; [exact Hr|]. simpl. unfold scoreText. by rewrite Hcm.
Qed.

(** C2. With [correctMarks] set, grading shows
    [correctCount * correctMarks + incorrectCount * (wrongMarks || 0)]
    out of [totalQuestions * correctMarks]; a positive number entered as
    the wrong marks is stored negated when the sheet is generated; and
    the worked example of four questions gives 2 correct, 1 incorrect,
    1 unanswered, 7 marks out of 16, with the key typed or uploaded. *)
Theorem weighted_scoring :
  (forall s cm,
     correctMarks s = Some cm ->
     sheetComplete s ->
     keySelectorSafe (answerKey s) (totalQuestions s) = true ->
     exists s' r,
       gradeSheet s = Done s' /\ results s' = Some r /\
       correctCount r
         = countOutcome (answerKey s) (sheet s) (seq 1 (totalQuestions s)) Correct /\
       incorrectCount r
         = countOutcome (answerKey s) (sheet s) (seq 1 (totalQuestions s)) Incorrect /\
       score r =
         Weighted
           (Js.add (Js.mul (Js.ofNat (correctCount r)) cm)
                   (Js.mul (Js.ofNat (incorrectCount r)) (wrongOrZero (wrongMarks s))))
           (Js.mul (Js.ofNat (totalQuestions s)) cm)
           (Js.mul (Js.ofNat (correctCount r)) cm)
           (Js.mul (Js.ofNat (incorrectCount r)) (wrongOrZero (wrongMarks s)))) /\
  (wrongOrZero None = Js.ofZ 0 /\
   forall c n q,
     Js.parseInt (questionCountInput c) = Some n -> 1 <= n <= 200 ->
     Js.parseFloat (wrongMarksInput c) = Js.Fin q -> (0 < q)%Q ->
     wrongMarks (generateOMRSheet c) = Some (Js.Fin (- q)) /\
     wrongOrZero (wrongMarks (generateOMRSheet c)) = Js.Fin (- q)) /\
  (totalQuestions sampleSheet = 4%nat /\
   correctMarks sampleSheet = Some (Js.Fin (4 # 1)) /\
   wrongMarks sampleSheet = Some (Js.Fin (-1 # 1)) /\
   selectedIn (sheet sampleSheet) <$> [1; 2; 3; 4]%nat
     = [Some OptA; Some OptA; None; Some OptD] /\
   answerKey sampleUploaded = list_to_map [(1, "A"); (2, "B"); (3, "C"); (4, "D")] /\
   results (step ClickCheck sampleUploaded)
     = Some (mkResults
               (Weighted (Js.Fin (7 # 1)) (Js.Fin (16 # 1)) (Js.Fin (8 # 1)) (Js.Fin (-1 # 1)))
               2 1 1) /\
   results (step ClickCheck sampleTyped) = results (step ClickCheck sampleUploaded)).
Proof.
  split; [|split].
  - intros s cm Hcm Hrows Hkey.
    destruct (gradeSheet_completes s Hrows Hkey) as [s' Hd].
    destruct (gradeSheet_counts s s' Hd) as (r & Hr & Hc & Hi & _).
    destruct (gradeSheet_weighted s cm s' Hcm Hd) as (r' & Hr' & Hs).
    rewrite Hr in Hr'. injection Hr' as <-. by exists s', r.
  - split; [done|]. intros c n q Hn Hr Hq Hpos.
    rewrite (generate_negates_wrongMarks c n q Hn Hr Hq Hpos). split; [done|].
    simpl. destruct (Qeq_bool (- q) 0) eqn:Hz; [|done].
    apply Qeq_bool_eq in Hz. exfalso.
    apply (Qlt_irrefl 0). rewrite <- (Qopp_opp q), Hz in Hpos. exact Hpos.
  - repeat split; vm_compute; reflexivity.
Qed.

(** The worked example, through the first part of the theorem. *)
Lemma weighted_scoring_witness :
  exists s' r,
    gradeSheet sampleUploaded = Done s' /\ results s' = Some r /\
    score r
    = Weighted (Js.Fin (7 # 1)) (Js.Fin (16 # 1)) (Js.Fin (8 # 1)) (Js.Fin (-1 # 1)).
Proof.
  destruct weighted_scoring as (Hgrade & _ & _).
  destruct (Hgrade sampleUploaded (Js.Fin (4 # 1)) eq_refl eq_refl eq_refl)
    as (s' & r & Hd & Hr & Hc & Hi & Hs).
  exists s', r. split; [exact Hd|]. split; [exact Hr|].
  rewrite Hs, Hc, Hi. reflexivity.
Defined.

(** ** The manual key *)

Lemma toUpperCase_length s : String.length (Js.toUpperCase s) = String.length s.
Proof. induction s as [|c s IH]; simpl; [done|by rewrite IH]. Qed.

Lemma toUpperCase_get s : forall i,
  String.get i (Js.toUpperCase s) = Js.toUpperChar <$> String.get i s.
Proof.
  induction s as [|c s IH]; intros [|i]; simpl; done.
Qed.

Lemma nonEmpty_toUpperCase s : nonEmpty (Js.toUpperCase s) = nonEmpty s.
Proof. by destruct s. Qed.

Lemma nonEmpty_length s : nonEmpty s = true <-> (0 < String.length s)%nat.
Proof. destruct s; simpl; split; (done || lia). Qed.

Lemma charAt_lt m i : (i < String.length m)%nat -> is_Some (Js.charAt m i).
Proof.
  revert i. induction m as [|c m IH]; intros i Hi; simpl in Hi; [lia|].
  destruct i as [|i]; [by eexists|].
  unfold Js.charAt in *. simpl. apply IH. lia.
Qed.

(** The loop over the characters of the manual key, started at index [a]
    with the entries [acc], for [n] turns. *)
Lemma manualKey_fold m n : forall a (acc : gmap Z string) (k : Z),
  (a + n <= String.length m)%nat ->
  foldl (fun key i =>
           match Js.charAt m i with
           | Some c => <[Z.of_nat (i + 1) := c]> key
           | None => key
           end) acc (seq a n) !! k
  = if decide (Z.of_nat a < k <= Z.of_nat (a + n))
    then Js.charAt m (Z.to_nat k - 1)
    else acc !! k.
Proof.
  induction n as [|n IH]; intros a acc k Hlen; simpl.
  - rewrite decide_False by lia. done.
  - rewrite IH by lia.
    destruct (charAt_lt m a) as [c Hc]; [lia|]. rewrite Hc.
    destruct (decide (k = Z.of_nat (a + 1))) as [->|Hne].
    + rewrite decide_False by lia. rewrite decide_True by lia.
      rewrite lookup_insert_eq. replace (Z.to_nat (Z.of_nat (a + 1)) - 1)%nat with a by lia.
      done.
    + rewrite lookup_insert_ne by done.
      destruct (decide (Z.of_nat (S a) < k <= Z.of_nat (S a + n))).
      * rewrite decide_True by lia. done.
      * rewrite decide_False by lia. done.
Qed.

(** The key built from a manual key: question [i] gets the character
    at index [i - 1], and there is nothing else in it. *)
Lemma manualAnswerKey_lookup m (k : Z) :
  manualAnswerKey m !! k
  = if decide (1 <= k <= Z.of_nat (String.length m))
    then Js.charAt m (Z.to_nat k - 1)
    else None.
Proof.
  unfold manualAnswerKey. rewrite manualKey_fold by lia.
  destruct (decide (1 <= k <= Z.of_nat (String.length m))).
  - rewrite decide_True by lia. done.
  - rewrite decide_False by lia. done.
Qed.

Lemma gradeSheet_keeps s :
  answerKey (stateOf (gradeSheet s)) = answerKey s /\
  checkError (stateOf (gradeSheet s)) = None /\
  totalQuestions (stateOf (gradeSheet s)) = totalQuestions s /\
  manualKeyInput (stateOf (gradeSheet s)) = manualKeyInput s.
Proof. unfold gradeSheet. by destruct (gradeLoop _ _ _). Qed.

(** The three ways [handleCheckAnswers] goes when a manual key is typed
    or a key is stored. *)
Lemma handleCheckAnswers_manual_mismatch s :
  nonEmpty (Js.trim (manualKeyInput s)) = true ->
  String.length (Js.trim (manualKeyInput s)) <> totalQuestions s ->
  handleCheckAnswers s
  = Done (showError CheckArea
            (MsgManualKeyLength (String.length (Js.trim (manualKeyInput s)))
               (totalQuestions s)) s).
Proof.
  intros Hne Hlen. unfold handleCheckAnswers.
  rewrite nonEmpty_toUpperCase, Hne, toUpperCase_length. simpl.
  destruct (Nat.eqb_spec (String.length (Js.trim (manualKeyInput s))) (totalQuestions s));
    done.
Qed.

Lemma handleCheckAnswers_manual_match s :
  nonEmpty (Js.trim (manualKeyInput s)) = true ->
  String.length (Js.trim (manualKeyInput s)) = totalQuestions s ->
  handleCheckAnswers s
  = gradeSheet (set_answerKey
                  (manualAnswerKey (Js.toUpperCase (Js.trim (manualKeyInput s)))) s).
Proof.
  intros Hne Hlen. unfold handleCheckAnswers.
  rewrite nonEmpty_toUpperCase, Hne, toUpperCase_length, Hlen, Nat.eqb_refl. done.
Qed.

Lemma handleCheckAnswers_uploaded s :
  nonEmpty (Js.trim (manualKeyInput s)) = false ->
  answerKey s <> ∅ ->
  handleCheckAnswers s
  = if decide (size (answerKey s) = totalQuestions s) then gradeSheet s
    else Done (showError CheckArea
                 (MsgUploadedKeyLength (size (answerKey s)) (totalQuestions s)) s).
Proof.
  intros Hne Hkey. unfold handleCheckAnswers.
  rewrite nonEmpty_toUpperCase, Hne. simpl.
  assert (size (answerKey s) <> 0%nat) by (by intros ?%map_size_empty_inv).
  replace (0 <? size (answerKey s))%nat with true by (symmetry; apply Nat.ltb_lt; lia).
  destruct (Nat.eqb_spec (size (answerKey s)) (totalQuestions s)).
  - by rewrite decide_True.
  - by rewrite decide_False.
Qed.

Lemma handleCheckAnswers_no_key s :
  nonEmpty (Js.trim (manualKeyInput s)) = false ->
  answerKey s = ∅ ->
  handleCheckAnswers s = Done (set_confirmModalHidden false s).
Proof.
  intros Hne Hkey. unfold handleCheckAnswers.
  rewrite nonEmpty_toUpperCase, Hne, Hkey, map_size_empty. done.
Qed.

(** C4, as stated, fails: a manual key whose length is the number of
    questions only with its surrounding blanks is refused, and an empty
    manual key, whose length differs from the number of questions, is
    not refused with a length error: the confirmation dialog opens. *)
Lemma manual_key_length_counterexample :
  (String.length (manualKeyInput samplePadded) = totalQuestions samplePadded /\
   handleCheckAnswers samplePadded
   = Done (showError CheckArea (MsgManualKeyLength 2 4) samplePadded) /\
   answerKey (stateOf (handleCheckAnswers samplePadded)) = ∅) /\
  (String.length (manualKeyInput sampleSheet) = 0%nat /\
   totalQuestions sampleSheet = 4%nat /\
   handleCheckAnswers sampleSheet = Done (set_confirmModalHidden false sampleSheet) /\
   checkError (stateOf (handleCheckAnswers sampleSheet)) = None).
Proof. repeat split. Qed.

(** C4, amended. For a manual key that is not empty once trimmed: when
    the trimmed length differs from the number of questions the check
    stops with the key-length message and the stored key is as before;
    when it equals it, no error is shown and the stored key has, for
    every question, the upper-cased character at its place in the trimmed
    text, and no other entry; grading then runs to its end on a complete
    sheet when the key has no character that breaks the selector. *)
Theorem manual_key_parsing (s : State)
    (Htyped : nonEmpty (Js.trim (manualKeyInput s)) = true) :
  (String.length (Js.trim (manualKeyInput s)) <> totalQuestions s ->
   handleCheckAnswers s
   = Done (showError CheckArea
             (MsgManualKeyLength (String.length (Js.trim (manualKeyInput s)))
                (totalQuestions s)) s) /\
   answerKey (stateOf (handleCheckAnswers s)) = answerKey s) /\
  (String.length (Js.trim (manualKeyInput s)) = totalQuestions s ->
   checkError (stateOf (handleCheckAnswers s)) = None /\
   (forall i, (1 <= i <= totalQuestions s)%nat ->
      exists c,
        String.get (i - 1) (Js.trim (manualKeyInput s)) = Some c /\
        answerKey (stateOf (handleCheckAnswers s)) !! Z.of_nat i
        = Some (String (Js.toUpperChar c) EmptyString)) /\
   (forall k : Z, ~ (1 <= k <= Z.of_nat (totalQuestions s)) ->
      answerKey (stateOf (handleCheckAnswers s)) !! k = None) /\
   (sheetComplete s ->
    keySelectorSafe (manualAnswerKey (Js.toUpperCase (Js.trim (manualKeyInput s))))
      (totalQuestions s) = true ->
    exists s', handleCheckAnswers s = Done s' /\ isGraded s' = true)).
Proof.
  split.
  - intros Hlen. rewrite handleCheckAnswers_manual_mismatch by done. done.
  - intros Hlen. rewrite handleCheckAnswers_manual_match by done.
    set (m := Js.toUpperCase (Js.trim (manualKeyInput s))).
    destruct (gradeSheet_keeps (set_answerKey (manualAnswerKey m) s))
      as (Hkey & Herr & _). rewrite Hkey. simpl.
    assert (Hm : String.length m = totalQuestions s)
      by (unfold m; by rewrite toUpperCase_length).
    split; [done|]. split; [|split].
    + intros i Hi. rewrite manualAnswerKey_lookup, decide_True by lia.
      replace (Z.to_nat (Z.of_nat i) - 1)%nat with (i - 1)%nat by lia.
      destruct (charAt_lt (Js.trim (manualKeyInput s)) (i - 1)) as [c Hc]; [lia|].
      unfold Js.charAt in *. unfold m. rewrite toUpperCase_get.
      destruct (String.get (i - 1) (Js.trim (manualKeyInput s))) as [c'|]; [|done].
      by exists c'.
    + intros k Hk. rewrite manualAnswerKey_lookup, decide_False by lia. done.
    + intros Hrows Hsafe.
      destruct (gradeSheet_completes (set_answerKey (manualAnswerKey m) s)) as [s' Hs'];
        [done|done|].
      exists s'. split; [done|]. by apply gradeSheet_Done in Hs' as (t & _ & _ & _ & _ & _ & ? & _).
Qed.

(** The sample sheet with the key typed as [abcd]. *)
Lemma manual_key_parsing_witness :
  nonEmpty (Js.trim (manualKeyInput sampleTyped)) = true /\
  String.length (Js.trim (manualKeyInput sampleTyped)) = totalQuestions sampleTyped /\
  (exists s', handleCheckAnswers sampleTyped = Done s' /\ isGraded s' = true) /\
  answerKey (stateOf (handleCheckAnswers sampleTyped)) !! 2 = Some "B".
Proof.
  assert (H : nonEmpty (Js.trim (manualKeyInput sampleTyped)) = true) by reflexivity.
  destruct (manual_key_parsing sampleTyped H) as [_ Hok].
  destruct (Hok eq_refl) as (_ & Hget & _ & Hrun).
  split; [exact H|]. split; [reflexivity|]. split.
  - apply Hrun; reflexivity.
  - destruct (Hget 2%nat) as (c & Hc & Hk); [change (1 <= 2 <= 4)%nat; lia|].
    injection Hc as <-. exact Hk.
Defined.

(** C8. With no manual key typed and a key stored, the check compares
    the number of entries of the stored key with the number of
    questions: when they differ it only shows the uploaded-key message,
    and nothing is graded; when they are equal it grades; so the sheet is
    graded exactly when the two are equal. *)
Theorem uploaded_key_size_checked (s : State)
    (Hmanual : nonEmpty (Js.trim (manualKeyInput s)) = false)
    (Hkey : answerKey s <> ∅) :
  (size (answerKey s) <> totalQuestions s ->
   handleCheckAnswers s
   = Done (showError CheckArea
             (MsgUploadedKeyLength (size (answerKey s)) (totalQuestions s)) s) /\
   isGraded (stateOf (handleCheckAnswers s)) = isGraded s /\
   results (stateOf (handleCheckAnswers s)) = results s /\
   sheet (stateOf (handleCheckAnswers s)) = sheet s /\
   timerRunning (stateOf (handleCheckAnswers s)) = timerRunning s /\
   answerKey (stateOf (handleCheckAnswers s)) = answerKey s) /\
  (size (answerKey s) = totalQuestions s -> handleCheckAnswers s = gradeSheet s) /\
  (handleCheckAnswers s = gradeSheet s -> size (answerKey s) = totalQuestions s).
Proof.
  rewrite handleCheckAnswers_uploaded by done.
  destruct (decide (size (answerKey s) = totalQuestions s)) as [Heq|Hne].
  - repeat split; done.
  - split; [done|]. split; [done|]. intros H. exfalso.
    destruct (gradeSheet_keeps s) as (_ & Herr & _).
    rewrite <- H in Herr. discriminate.
Qed.

(** The sample sheet with its uploaded key of four answers. *)
Lemma uploaded_key_size_checked_witness :
  handleCheckAnswers sampleUploaded = gradeSheet sampleUploaded.
Proof.
  assert (H : answerKey sampleUploaded <> ∅).
  { intros H%(f_equal size). vm_compute in H. discriminate. }
  destruct (uploaded_key_size_checked sampleUploaded eq_refl H) as (_ & Hok & _).
  apply Hok. reflexivity.
Defined.

(** C10, as stated, fails: with a stored key of four answers and a
    manual key of three characters on a sheet of four questions, the
    check shows the manual-key message and the stored key stays; it is
    not replaced by the key the manual text would give. *)
Lemma manual_key_precedence_counterexample :
  nonEmpty (Js.trim (manualKeyInput sampleBoth)) = true /\
  answerKey sampleBoth = list_to_map [(1, "A"); (2, "B"); (3, "C"); (4, "D")] /\
  handleCheckAnswers sampleBoth
  = Done (showError CheckArea (MsgManualKeyLength 3 4) sampleBoth) /\
  answerKey (stateOf (handleCheckAnswers sampleBoth))
  = list_to_map [(1, "A"); (2, "B"); (3, "C"); (4, "D")] /\
  manualAnswerKey (Js.toUpperCase (Js.trim (manualKeyInput sampleBoth)))
  = list_to_map [(1, "D"); (2, "C"); (3, "B")].
Proof. repeat split; vm_compute; reflexivity. Qed.

(** C10, amended. With a manual key that is not empty once trimmed, the
    check goes by the manual key whatever key is stored: when the
    trimmed length equals the number of questions the stored key is
    replaced by the manual one and the sheet is graded with it; when it
    differs the check stops with the manual-key message and the stored
    key stays.  The number of entries of the stored key plays no part. *)
Theorem manual_key_precedence (s : State) (uploaded : gmap Z string)
    (Hmanual : nonEmpty (Js.trim (manualKeyInput s)) = true) :
  (String.length (Js.trim (manualKeyInput s)) = totalQuestions s ->
   handleCheckAnswers (set_answerKey uploaded s)
   = gradeSheet (set_answerKey
                   (manualAnswerKey (Js.toUpperCase (Js.trim (manualKeyInput s)))) s) /\
   answerKey (stateOf (handleCheckAnswers (set_answerKey uploaded s)))
   = manualAnswerKey (Js.toUpperCase (Js.trim (manualKeyInput s)))) /\
  (String.length (Js.trim (manualKeyInput s)) <> totalQuestions s ->
   handleCheckAnswers (set_answerKey uploaded s)
   = Done (showError CheckArea
             (MsgManualKeyLength (String.length (Js.trim (manualKeyInput s)))
                (totalQuestions s)) (set_answerKey uploaded s)) /\
   answerKey (stateOf (handleCheckAnswers (set_answerKey uploaded s))) = uploaded).
Proof.
  split; intros Hlen.
  - rewrite (handleCheckAnswers_manual_match (set_answerKey uploaded s)) by done.
    change (manualKeyInput (set_answerKey uploaded s)) with (manualKeyInput s).
    set (key := manualAnswerKey (Js.toUpperCase (Js.trim (manualKeyInput s)))).
    change (set_answerKey key (set_answerKey uploaded s)) with (set_answerKey key s).
    split; [done|]. by destruct (gradeSheet_keeps (set_answerKey key s)) as (-> & _).
  - rewrite (handleCheckAnswers_manual_mismatch (set_answerKey uploaded s)) by done.
    done.
Qed.

(** A typed key of the right length beside the uploaded one. *)
Lemma manual_key_precedence_witness :
  answerKey (stateOf (handleCheckAnswers
                        (set_answerKey (answerKey sampleUploaded) sampleTyped)))
  = manualAnswerKey "ABCD".
Proof.
  destruct (manual_key_precedence sampleTyped (answerKey sampleUploaded) eq_refl)
    as [Hok _].
  destruct (Hok eq_refl) as [_ Hkey]. exact Hkey.
Defined.

(** ** Keys as sequences of pairs *)

Lemma keyOfPairs_snoc ps q a :
  keyOfPairs (ps ++ [(q, a)]) = <[q := a]> (keyOfPairs ps).
Proof. unfold keyOfPairs. by rewrite foldl_app. Qed.

(** The last pair of a question is the one that stands. *)
Lemma keyOfPairs_last pre q a post :
  q ∉ (fst <$> post) -> keyOfPairs (pre ++ (q, a) :: post) !! q = Some a.
Proof.
  induction post as [|[q' a'] post IH] using rev_ind; intros Hq.
  - rewrite keyOfPairs_snoc. apply lookup_insert_eq.
  - rewrite fmap_app in Hq. apply not_elem_of_app in Hq as [Hpost Hq'].
    apply not_elem_of_cons in Hq' as [Hne _]. simpl in Hne.
    replace (pre ++ (q, a) :: post ++ [(q', a')])
      with ((pre ++ (q, a) :: post) ++ [(q', a')]) by (by rewrite <- app_assoc).
    rewrite keyOfPairs_snoc, lookup_insert_ne by done. by apply IH.
Qed.

(** A question without a pair has no entry. *)
Lemma keyOfPairs_none ps q :
  q ∉ (fst <$> ps) -> keyOfPairs ps !! q = None.
Proof.
  induction ps as [|[q' a'] ps IH] using rev_ind; intros Hq; [done|].
  rewrite fmap_app in Hq. apply not_elem_of_app in Hq as [Hps Hq'].
  apply not_elem_of_cons in Hq' as [Hne _]. simpl in Hne.
  rewrite keyOfPairs_snoc, lookup_insert_ne by done. by apply IH.
Qed.

(** Every entry of the key comes from a pair that no later pair of the
    same question follows. *)
Lemma keyOfPairs_lookup ps q a :
  keyOfPairs ps !! q = Some a <->
  exists pre post, ps = pre ++ (q, a) :: post /\ q ∉ (fst <$> post).
Proof.
  split.
  - induction ps as [|[q' a'] ps IH] using rev_ind; [done|].
    rewrite keyOfPairs_snoc. destruct (decide (q' = q)) as [->|Hne].
    + rewrite lookup_insert_eq. intros [= ->]. exists ps, []. split; [done|].
      apply not_elem_of_nil.
    + rewrite lookup_insert_ne by done. intros (pre & post & -> & Hq)%IH.
      exists pre, (post ++ [(q', a')]). split; [by rewrite <- app_assoc|].
      rewrite fmap_app. apply not_elem_of_app. split; [done|].
      apply not_elem_of_cons. split; [done|apply not_elem_of_nil].
  - intros (pre & post & -> & Hq). by apply keyOfPairs_last.
Qed.

Lemma keyOfPairs_nonempty ps : ps <> [] -> keyOfPairs ps <> ∅.
Proof.
  destruct ps as [|[q a] ps] using rev_ind; [done|]. intros _.
  rewrite keyOfPairs_snoc. apply insert_non_empty.
Qed.

(** ** Proceeding without a key *)

(** C6, as stated, fails: on the sample sheet the dialog opens, the user
    confirms, and [isGraded], false before, is false afterwards. *)
Lemma proceed_without_key_counterexample :
  isGraded sampleAsked = false /\
  confirmModalHidden sampleAsked = false /\
  isGraded (step ConfirmYes sampleAsked) = false.
Proof. repeat split. Qed.

(** C6, amended. After the user has confirmed to go on without a key,
    [isGraded] is false, nothing has been scored (the results panel and
    the key are as before), the timer is stopped, the selections are
    kept, and answer input is frozen: a click on an option or on a Clear
    button changes nothing. *)
Theorem proceed_without_key (s : State) :
  isGraded (handleConfirmProceed s) = false /\
  results (handleConfirmProceed s) = results s /\
  answerKey (handleConfirmProceed s) = answerKey s /\
  timerRunning (handleConfirmProceed s) = false /\
  (forall i, selectedIn (sheet (handleConfirmProceed s)) i = selectedIn (sheet s) i) /\
  (forall i o, clickOption i o (handleConfirmProceed s) = handleConfirmProceed s) /\
  (forall i, clickClear i (handleConfirmProceed s) = handleConfirmProceed s).
Proof.
  repeat split.
  - intros i. unfold selectedIn. simpl. rewrite list_lookup_fmap.
    by destruct (sheet s !! (i - 1)%nat).
  - intros [|j] o; [done|]. unfold clickOption. simpl. rewrite list_lookup_fmap.
    by destruct (sheet s !! j).
  - intros [|j]; [done|]. unfold clickClear. simpl. rewrite list_lookup_fmap.
    by destruct (sheet s !! j).
Qed.

(** ** Keys from spreadsheets *)

Lemma includes_elem_of l x : includes l x = true <-> x ∈ l.
Proof.
  unfold includes. rewrite existsb_exists. split.
  - intros (y & Hy & ->%String.eqb_eq). by apply list_elem_of_In.
  - intros Hx. exists x. split; [by apply list_elem_of_In|apply String.eqb_refl].
Qed.

(** One row of the loop stores the pair the specification accepts, or
    nothing. *)
Lemma excelRow_accepted acc row :
  excelRow acc row
  = match acceptedPair row with
    | Some p => (<[fst p := snd p]> (fst acc), S (snd acc))
    | None => acc
    end.
Proof.
  unfold excelRow, acceptedPair.
  destruct (Js.parseInt (toString (field row 0))) as [q|]; [|done].
  destruct (decide (_ ∈ _)) as [Hin|Hin].
  - apply includes_elem_of in Hin. by rewrite Hin.
  - destruct (includes _ _) eqn:E; [|done]. by apply includes_elem_of in E.
Qed.

Lemma excel_loop data : forall acc,
  foldl excelRow acc data
  = (foldl (fun key p => <[fst p := snd p]> key) (fst acc) (omap acceptedPair data),
     (snd acc + length (omap acceptedPair data))%nat).
Proof.
  induction data as [|row data IH]; intros [key n]; simpl.
  - by rewrite Nat.add_0_r.
  - rewrite IH, excelRow_accepted. destruct (acceptedPair row) as [p|]; simpl.
    + by rewrite Nat.add_succ_r.
    + done.
Qed.

(** The parse of a spreadsheet, by the pairs it accepts. *)
Lemma excel_parse_result data s :
  parseAnswerKeyFromExcel data s
  = match omap acceptedPair data with
    | [] => showError CheckArea MsgNoAnswersExcel s
    | pairs => keyLoaded pairs s
    end.
Proof.
  unfold parseAnswerKeyFromExcel. rewrite excel_loop. simpl.
  destruct (omap acceptedPair data) as [|p pairs]; done.
Qed.

(** C5. A row of the spreadsheet contributes its pair exactly when its
    first field parses as an integer and its second field, trimmed and
    upper-cased, is one of A, B, C and D; every other row is passed over.
    When no row contributes, the parse shows its error and changes
    nothing else.  Otherwise it stores the key of the accepted pairs, in
    the order of the rows (so that the last accepted row of a question
    stands), empties the manual-key field, hides the error and reports
    how many pairs were accepted.  A sheet with a heading, a number typed
    as text, a missing letter, a letter outside A to D and a question
    listed twice shows each case. *)
Theorem excel_parsing (data : list (list Cell)) (s : State) :
  (forall row q a,
     acceptedPair row = Some (q, a) <->
     Js.parseInt (toString (field row 0)) = Some q /\
     a = Js.toUpperCase (Js.trim (toString (field row 1))) /\
     (a = "A" \/ a = "B" \/ a = "C" \/ a = "D")) /\
  parseAnswerKeyFromExcel data s
  = match omap acceptedPair data with
    | [] =>
        mkState (totalQuestions s) (correctMarks s) (wrongMarks s) (answerKey s)
          (timerRunning s) (isGraded s) (questionCountInput s)
          (correctMarksInput s) (wrongMarksInput s) (manualKeyInput s)
          (configError s) (Some MsgNoAnswersExcel) (statusMessage s) (sheet s)
          (confirmModalHidden s) (results s) (checkBtnOnclick s)
    | pairs =>
        mkState (totalQuestions s) (correctMarks s) (wrongMarks s) (keyOfPairs pairs)
          (timerRunning s) (isGraded s) (questionCountInput s)
          (correctMarksInput s) (wrongMarksInput s) EmptyString
          (configError s) None (Some (StatusLoaded (length pairs))) (sheet s)
          (confirmModalHidden s) (results s) (checkBtnOnclick s)
    end /\
  (forall q a,
     keyOfPairs (omap acceptedPair data) !! q = Some a <->
     exists pre post,
       omap acceptedPair data = pre ++ (q, a) :: post /\ q ∉ (fst <$> post)) /\
  parseAnswerKeyFromExcel
    [[CString "Q"; CString "Answer"]; [CNumber 1; CString " a "];
     [CString "2."; CString "B"]; [CNumber 3]; [CNumber 4; CString "E"];
     [CNumber 1; CString "d"]] s
  = mkState (totalQuestions s) (correctMarks s) (wrongMarks s)
      (list_to_map [(1, "D"); (2, "B")])
      (timerRunning s) (isGraded s) (questionCountInput s)
      (correctMarksInput s) (wrongMarksInput s) EmptyString
      (configError s) None (Some (StatusLoaded 3)) (sheet s)
      (confirmModalHidden s) (results s) (checkBtnOnclick s) /\
  parseAnswerKeyFromExcel
    [[CString "Q"; CString "Answer"]; [CNumber 3]; [CNumber 4; CString "E"];
     [CString "x1"; CString "A"]; []] s
  = mkState (totalQuestions s) (correctMarks s) (wrongMarks s) (answerKey s)
      (timerRunning s) (isGraded s) (questionCountInput s)
      (correctMarksInput s) (wrongMarksInput s) (manualKeyInput s)
      (configError s) (Some MsgNoAnswersExcel) (statusMessage s) (sheet s)
      (confirmModalHidden s) (results s) (checkBtnOnclick s).
Proof.
  split; [|split; [|split; [|split]]].
  - intros row q a. unfold acceptedPair.
    destruct (Js.parseInt (toString (field row 0))) as [q'|].
    + destruct (decide (_ ∈ _)) as [Hin|Hin].
      * split.
        -- intros [= -> <-]. split; [done|]. split; [done|].
           by rewrite !elem_of_cons, elem_of_nil in Hin; intuition.
        -- intros ([= ->] & -> & _). done.
      * split; [done|]. intros (_ & -> & H). exfalso. apply Hin.
        rewrite !elem_of_cons. intuition.
    + split; [done|]. intros ([=] & _).
  - rewrite excel_parse_result. by destruct (omap acceptedPair data).
  - intros q a. apply keyOfPairs_lookup.
  - unfold parseAnswerKeyFromExcel.
    replace (foldl excelRow _ _)
      with (list_to_map [(1, "D"); (2, "B")] : gmap Z string, 3%nat)
      by (vm_compute; reflexivity).
    reflexivity.
  - unfold parseAnswerKeyFromExcel.
    replace (foldl excelRow _ _) with (∅ : gmap Z string, 0%nat)
      by (vm_compute; reflexivity).
    reflexivity.
Qed.

Example excel_parsing_sample :
  omap acceptedPair
    [[CString "Q"; CString "Answer"]; [CNumber 1; CString " a "];
     [CString "2."; CString "B"]; [CNumber 3]; [CNumber 4; CString "E"];
     [CNumber 1; CString "d"]]
  = [(1, "A"); (2, "B"); (1, "D")] /\
  keyOfPairs [(1, "A"); (2, "B"); (1, "D")] = list_to_map [(1, "D"); (2, "B")].
Proof. split; vm_compute; reflexivity. Qed.

(** In a spreadsheet, the last accepted row of a question gives its
    answer. *)
Theorem excel_last_row_wins (pre post : list (list Cell)) (row : list Cell)
    (q : Z) (a : string) (s : State)
    (Hrow : acceptedPair row = Some (q, a))
    (Hpost : Forall (fun r => forall a', acceptedPair r <> Some (q, a')) post) :
  answerKey (parseAnswerKeyFromExcel (pre ++ row :: post) s) !! q = Some a.
Proof.
  rewrite excel_parse_result.
  assert (Hpairs : omap acceptedPair (pre ++ row :: post)
                   = omap acceptedPair pre ++ (q, a) :: omap acceptedPair post)
    by (rewrite omap_app; simpl; by rewrite Hrow).
  destruct (omap acceptedPair (pre ++ row :: post)) as [|p ps] eqn:E.
  { by destruct (omap acceptedPair pre). }
  change (answerKey (keyLoaded (p :: ps) s)) with (keyOfPairs (p :: ps)).
  rewrite Hpairs. apply keyOfPairs_last.
  intros ([q' a'] & Hq & (r & Hr & Hp)%list_elem_of_omap)%list_elem_of_fmap.
  simpl in Hq. subst q'. eapply Forall_forall in Hpost; [|exact Hr]. by apply (Hpost a').
Qed.

(** Two rows for question 5. *)
Lemma excel_last_row_wins_witness :
  answerKey (parseAnswerKeyFromExcel
               ([[CNumber 5; CString "A"]] ++ [CNumber 5; CString "b"] :: [[CNumber 6; CString "C"]])
               sampleSheet) !! 5
  = Some "B".
Proof.
  apply excel_last_row_wins; [reflexivity|].
  repeat constructor. intros a'. vm_compute. discriminate.
Defined.

(** ** The regular expression *)

Lemma tryDown_Some {X} (k : nat -> option X) i n x :
  Regex.tryDown k i n = Some x -> exists m, (m <= n)%nat /\ k (i + m)%nat = Some x.
Proof.
  induction n as [|n IH]; simpl.
  - destruct (k (i + 0)%nat) eqn:E; [|done]. intros [= ->]. exists 0%nat. by split.
  - destruct (k (i + S n)%nat) eqn:E.
    + intros [= ->]. exists (S n). by split.
    + intros (m & Hm & Hk)%IH. exists m. split; [lia|done].
Qed.

Lemma runLength_inClass p text : forall i j,
  (j < Regex.runLength p (drop i text))%nat -> Regex.inClass p text (i + j) = true.
Proof.
  unfold Regex.inClass. intros i j. rewrite <- lookup_drop.
  generalize (drop i text). clear. intros l. revert j.
  induction l as [|c l IH]; intros j Hj; simpl in Hj; [lia|].
  destruct (p c) eqn:Hc; [|lia].
  destruct j as [|j]; simpl; [done|]. apply IH. lia.
Qed.

Lemma inClass_lt p text i : Regex.inClass p text i = true -> (i < length text)%nat.
Proof.
  unfold Regex.inClass. destruct (text !! i) eqn:E; [|done].
  intros _. by eapply lookup_lt_Some.
Qed.

(** The search finds only matches: whatever [matchRe] hands to its
    continuation is the end of a match of the expression, with the
    groups of that match added to the captures. *)
Lemma matchRe_sound {X} text r : forall i caps (k : nat -> Regex.captures -> option X) x,
  Regex.matchRe r text i caps k = Some x ->
  exists j cs, Matches text r i j cs /\ k j (caps ++ cs) = Some x.
Proof.
  induction r as [p|p|p|p| |r IH|r1 IH1 r2 IH2]; intros i caps k x; simpl.
  - destruct (Regex.inClass p text i) eqn:E; [|done]. intros H.
    exists (S i), []. rewrite app_nil_r. split; [by constructor|done].
  - intros (m & Hm & Hk)%tryDown_Some.
    exists (i + m)%nat, []. rewrite app_nil_r. split; [|done].
    constructor. intros j Hj. replace j with (i + (j - i))%nat by lia.
    apply runLength_inClass. lia.
  - destruct (Regex.runLength p (drop i text)) as [|n] eqn:E; [done|].
    intros (m & Hm & Hk)%tryDown_Some.
    exists (S i + m)%nat, []. rewrite app_nil_r. split; [|done].
    constructor. intros j Hj. replace j with (i + (j - i))%nat by lia.
    apply runLength_inClass. lia.
  - destruct (Regex.inClass p text i) eqn:E.
    + destruct (k (S i) caps) eqn:Ek.
      * intros [= ->]. exists (S i), []. rewrite app_nil_r. split; [by constructor|done].
      * intros H. exists i, []. rewrite app_nil_r. split; [constructor|done].
    + intros H. exists i, []. rewrite app_nil_r. split; [constructor|done].
  - destruct (Regex.atBoundary text i) eqn:E; [|done]. intros H.
    exists i, []. rewrite app_nil_r. split; [by constructor|done].
  - intros (j & cs & Hm & Hk)%IH.
    exists j, (cs ++ [(i, j)]). split; [by constructor|]. by rewrite app_assoc.
  - intros (j & cs1 & Hm1 & (j' & cs2 & Hm2 & Hk)%IH2)%IH1.
    exists j', (cs1 ++ cs2). split; [by econstructor|]. by rewrite app_assoc.
Qed.

(** A match ends at or after its start, and inside the text when it
    starts inside. *)
Lemma Matches_bounds text r i j cs :
  Matches text r i j cs -> (i <= j)%nat /\ ((i <= length text)%nat -> (j <= length text)%nat).
Proof.
  induction 1 as [p i Hc|p i n Hall|p i n Hall|p i Hc|p i|i Hb|r i j cs _ IH
                 |r1 r2 i j k cs1 cs2 _ IH1 _ IH2].
  - apply inClass_lt in Hc. lia.
  - split; [lia|]. intros Hi. destruct n as [|n]; [lia|].
    specialize (Hall (i + n)%nat). apply inClass_lt in Hall; lia.
  - split; [lia|]. intros Hi.
    specialize (Hall (i + n)%nat). apply inClass_lt in Hall; lia.
  - apply inClass_lt in Hc. lia.
  - lia.
  - lia.
  - done.
  - lia.
Qed.

(** The matches of the answer pattern: a run of digits (group 1), white
    space, at most one separator, white space again, and one of the
    letters A to D (group 2) at which a word ends. *)
Lemma answerPattern_shape text i j cs :
  Matches text answerPattern i j cs ->
  exists d n1 o n2 l,
    cs = [(i, S i + d); (l, S l)]%nat /\ j = S l /\
    l = (S i + d + n1 + o + n2)%nat /\ (o <= 1)%nat /\
    (forall t, (i <= t < S i + d)%nat -> Regex.inClass Js.isDigit text t = true) /\
    (forall t, (S i + d <= t < S i + d + n1)%nat ->
       Regex.inClass Js.isWhiteSpace text t = true) /\
    (o = 1%nat -> Regex.inClass isSeparator text (S i + d + n1) = true) /\
    (forall t, (S i + d + n1 + o <= t < l)%nat ->
       Regex.inClass Js.isWhiteSpace text t = true) /\
    Regex.inClass isAtoD text l = true /\
    Regex.atBoundary text (S l) = true.
Proof.
  unfold answerPattern. intros H.
  inversion H as [| | | | | | |? ? ? j1 ? c1 c1' Hg1 H1]; subst; clear H.
  inversion Hg1 as [| | | | | |? ? ? c2 Hd|]; subst; clear Hg1.
  inversion Hd as [| |? ? d Hdig| | | | |]; subst; clear Hd.
  inversion H1 as [| | | | | | |? ? ? j2 ? c3 c3' Hw1 H2]; subst; clear H1.
  inversion Hw1 as [|? ? n1 Hws1| | | | | |]; subst; clear Hw1.
  inversion H2 as [| | | | | | |? ? ? j3 ? c4 c4' Hs H3]; subst; clear H2.
  inversion H3 as [| | | | | | |? ? ? j4 ? c5 c5' Hw2 H4]; subst; clear H3.
  inversion Hw2 as [|? ? n2 Hws2| | | | | |]; subst; clear Hw2.
  inversion H4 as [| | | | | | |? ? ? j5 ? c6 c6' Hg2 Hb]; subst; clear H4.
  inversion Hg2 as [| | | | | |? ? ? c7 Hl|]; subst; clear Hg2.
  inversion Hl as [? ? Hlet| | | | | | |]; subst; clear Hl.
  inversion Hb as [| | | | |? Hbd| |]; subst; clear Hb.
  inversion Hs as [| | |? ? Hsep|? ?| | |]; subst; clear Hs.
  - exists d, n1, 1%nat, n2, (S (S i + d + n1) + n2)%nat. simpl.
    repeat split; try done; try lia.
    + intros t Ht. apply Hws2. lia.
  - exists d, n1, 0%nat, n2, (S i + d + n1 + n2)%nat. simpl.
    repeat split; try done; try lia.
    + intros t Ht. apply Hws2. lia.
Qed.

Lemma length_list_ascii s : length (list_ascii_of_string s) = String.length s.
Proof. induction s as [|c s IH]; simpl; [done|by rewrite IH]. Qed.

Lemma take_inClass p l : forall n i,
  (forall t, (i <= t < i + n)%nat -> Regex.inClass p l t = true) ->
  length (take n (drop i l)) = n /\ forallb p (take n (drop i l)) = true.
Proof.
  induction n as [|n IH]; intros i H; [by rewrite take_0|].
  assert (Hi : Regex.inClass p l i = true) by (apply H; lia).
  unfold Regex.inClass in Hi. destruct (l !! i) as [c|] eqn:E; [|done].
  rewrite (drop_S l c i E). simpl. rewrite Hi.
  destruct (IH (S i)) as [-> ->]; [|done]. intros t Ht. apply H. lia.
Qed.

Lemma isAtoD_letter c :
  isAtoD c = true -> String c EmptyString ∈ ["A"; "B"; "C"; "D"].
Proof.
  intros H.
  destruct c as [[] [] [] [] [] [] [] []]; try (vm_compute in H; discriminate H);
    rewrite !elem_of_cons; repeat (first [left; reflexivity | right]).
Qed.

Lemma matchAt_sound r text i m :
  Regex.matchAt r text i = Some m ->
  exists j cs, Matches text r i j cs /\ m = Regex.mkResult i j (Regex.slice text <$> cs).
Proof.
  unfold Regex.matchAt. intros (j & cs & Hm & [= <-])%matchRe_sound. by exists j, cs.
Qed.

(** [firstMatch] gives the match at the first start that has one. *)
Lemma firstMatch_Some r text starts m :
  Regex.firstMatch r text starts = Some m ->
  exists pre i post,
    starts = pre ++ i :: post /\ Regex.matchAt r text i = Some m /\
    Forall (fun i' => Regex.matchAt r text i' = None) pre.
Proof.
  induction starts as [|i starts IH]; simpl; [done|].
  destruct (Regex.matchAt r text i) as [m'|] eqn:E.
  - intros [= ->]. by exists [], i, starts.
  - intros (pre & i' & post & -> & Hm & Hpre)%IH.
    exists (i :: pre), i', post. repeat split; [done|by constructor].
Qed.

Lemma firstMatch_None r text starts :
  Regex.firstMatch r text starts = None ->
  Forall (fun i => Regex.matchAt r text i = None) starts.
Proof.
  induction starts as [|i starts IH]; simpl; [constructor|].
  destruct (Regex.matchAt r text i) eqn:E; [done|]. intros H. constructor; auto.
Qed.

(** A result of [exec] for the answer pattern starts at or after the
    position the search started from, and no position in between has a
    match. *)
Lemma exec_Some text from m :
  Regex.exec answerPattern text from = Some m ->
  (from <= Regex.index m)%nat /\
  answerMatch text m /\
  (forall i, (from <= i < Regex.index m)%nat ->
     Regex.matchAt answerPattern (list_ascii_of_string text) i = None).
Proof.
  unfold Regex.exec. set (l := list_ascii_of_string text).
  intros (pre & i & post & Hseq & Hm & Hpre)%firstMatch_Some.
  assert (Hlen : length pre = (i - from)%nat /\ (from <= i <= length l)%nat).
  { assert (Hi : i ∈ seq from (S (length l) - from))
      by (rewrite Hseq; apply elem_of_app; right; apply elem_of_cons; by left).
    apply elem_of_seq in Hi.
    assert (Hl : seq from (S (length l) - from) !! length pre = Some i)
      by (rewrite Hseq; apply list_lookup_middle; done).
    apply lookup_seq in Hl. lia. }
  destruct Hlen as [Hpl Hi].
  apply matchAt_sound in Hm as (j & cs & Hmt & ->).
  pose proof (Matches_bounds _ _ _ _ _ Hmt) as [_ Hj]. specialize (Hj (proj2 Hi)).
  apply answerPattern_shape in Hmt
    as (d & n1 & o & n2 & lp & -> & -> & Hlp & Ho & Hdig & _ & _ & _ & Hlet & _).
  unfold answerMatch. simpl. split; [lia|]. split.
  - split; [rewrite <- length_list_ascii; fold l; lia|].
    destruct (take_inClass Js.isDigit l (S d) i) as [Hdl Hdd];
      [intros t Ht; apply Hdig; lia|].
    unfold Regex.inClass in Hlet. destruct (l !! lp) as [c|] eqn:Ec; [|done].
    exists (take (S d) (drop i l)), (String c EmptyString).
    unfold Regex.slice. simpl. fold l.
    replace (S (i + d) - i)%nat with (S d) by lia.
    replace (S lp - lp)%nat with 1%nat by lia.
    rewrite Nat.sub_0_r, (drop_S l c lp Ec). simpl. rewrite take_0.
    repeat split; try done.
    + destruct (drop i l); simpl in *; done.
    + by apply isAtoD_letter.
    + simpl in Hdl. rewrite Hdl. done.
  - intros i' Hi'.
    assert (Hl : seq from (S (length l) - from) !! (i' - from)%nat = Some i')
      by (apply lookup_seq; lia).
    rewrite Hseq, lookup_app_l in Hl by lia.
    eapply Forall_lookup_1 in Hpre; eauto.
Qed.

Lemma exec_None text from :
  Regex.exec answerPattern text from = None ->
  forall i, (from <= i <= String.length text)%nat ->
    Regex.matchAt answerPattern (list_ascii_of_string text) i = None.
Proof.
  unfold Regex.exec. intros H%firstMatch_None i Hi.
  rewrite <- length_list_ascii in Hi.
  eapply Forall_lookup_1 with (i := (i - from)%nat) in H; [done|].
  apply lookup_seq. lia.
Qed.

Lemma tryDown_complete {X} (k : nat -> option X) i n m :
  (m <= n)%nat -> is_Some (k (i + m)%nat) -> is_Some (Regex.tryDown k i n).
Proof.
  induction n as [|n IH]; intros Hm Hk; simpl.
  - replace m with 0%nat in Hk by lia. destruct (k (i + 0)%nat); [done|].
    by destruct Hk.
  - destruct (k (i + S n)%nat) eqn:E; [done|].
    apply IH; [|done]. destruct (decide (m = S n)) as [->|]; [|lia].
    rewrite E in Hk. by destruct Hk.
Qed.

Lemma inClass_runLength p text : forall n i,
  (forall j, (i <= j < i + n)%nat -> Regex.inClass p text j = true) ->
  (n <= Regex.runLength p (drop i text))%nat.
Proof.
  induction n as [|n IH]; intros i H; [lia|].
  assert (Hi : Regex.inClass p text i = true) by (apply H; lia).
  unfold Regex.inClass in Hi. destruct (text !! i) as [c|] eqn:E; [|done].
  rewrite (drop_S text c i E). simpl. rewrite Hi.
  apply le_n_S, IH. intros j Hj. apply H. lia.
Qed.

(** Whenever the expression has a match from which the continuation
    goes through, the search succeeds (with that match or with one it
    tries before). *)
Lemma matchRe_complete {X} text r i j cs :
  Matches text r i j cs ->
  forall caps (k : nat -> Regex.captures -> option X),
    is_Some (k j (caps ++ cs)) -> is_Some (Regex.matchRe r text i caps k).
Proof.
  induction 1 as [p i Hc|p i n Hall|p i n Hall|p i Hc|p i|i Hb|r i j cs _ IH
                 |r1 r2 i j k' cs1 cs2 _ IH1 _ IH2]; intros caps k Hk; simpl;
    rewrite ?app_nil_r in Hk.
  - by rewrite Hc.
  - apply (tryDown_complete _ i _ n); [|done]. by apply inClass_runLength.
  - pose proof (inClass_runLength p text (S n) i) as Hr.
    destruct (Regex.runLength p (drop i text)) as [|n'] eqn:E.
    + specialize (Hr ltac:(intros; apply Hall; lia)). lia.
    + apply (tryDown_complete _ (S i) _ n); [|done].
      specialize (Hr ltac:(intros; apply Hall; lia)). lia.
  - rewrite Hc. by destruct (k (S i) caps).
  - destruct (Regex.inClass p text i); [|done].
    by destruct (k (S i) caps).
  - by rewrite Hb.
  - apply IH. by rewrite <- app_assoc.
  - apply IH1, IH2. by rewrite <- app_assoc.
Qed.

(** [exec] finds the leftmost match: its result starts at the first
    position, from where the search began, at which the pattern has a
    match at all; and it gives [null] only when no position of the rest
    of the text has one. *)
Theorem exec_leftmost (text : string) (from : nat) :
  match Regex.exec answerPattern text from with
  | Some m =>
      (from <= Regex.index m)%nat /\
      (exists cs, Matches (list_ascii_of_string text) answerPattern
                    (Regex.index m) (Regex.lastIndex m) cs) /\
      (forall i j cs, (from <= i < Regex.index m)%nat ->
         ~ Matches (list_ascii_of_string text) answerPattern i j cs)
  | None =>
      forall i j cs, (from <= i <= String.length text)%nat ->
        ~ Matches (list_ascii_of_string text) answerPattern i j cs
  end.
Proof.
  destruct (Regex.exec answerPattern text from) as [m|] eqn:E.
  - pose proof (exec_Some text from m E) as (Hfrom & _ & Hbefore).
    split; [done|]. split.
    + unfold Regex.exec in E.
      apply firstMatch_Some in E as (pre & i & post & _ & Hm & _).
      apply matchAt_sound in Hm as (j & cs & Hmt & ->). by exists cs.
    + intros i j cs Hi Hmt. specialize (Hbefore i Hi).
      unfold Regex.matchAt in Hbefore.
      pose proof (matchRe_complete _ _ _ _ _ Hmt []
                    (fun j c => Some (Regex.mkResult i j
                                        (Regex.slice (list_ascii_of_string text) <$> c))))
        as Hs.
      rewrite Hbefore in Hs. by destruct Hs.
  - intros i j cs Hi Hmt. pose proof (exec_None text from E i Hi) as Hnone.
    unfold Regex.matchAt in Hnone.
    pose proof (matchRe_complete _ _ _ _ _ Hmt []
                  (fun j c => Some (Regex.mkResult i j
                                      (Regex.slice (list_ascii_of_string text) <$> c))))
      as Hs.
    rewrite Hnone in Hs. by destruct Hs.
Qed.

(** ** Keys from text *)

Lemma isDigit_plain c :
  Js.isDigit c = true ->
  Js.isWhiteSpace c = false /\ c <> "-"%char /\ c <> "+"%char.
Proof.
  intros H.
  destruct c as [[] [] [] [] [] [] [] []]; try (vm_compute in H; discriminate H);
    repeat split; done.
Qed.

Lemma spanDigits_all ds :
  forallb Js.isDigit ds = true ->
  Js.spanDigits (string_of_list_ascii ds) = (ds, EmptyString).
Proof.
  induction ds as [|c ds IH]; simpl; [done|].
  intros [Hc Hds]%andb_prop. by rewrite Hc, IH.
Qed.

(** [parseInt] of a run of digits is the number the digits denote. *)
Lemma parseInt_digits ds :
  ds <> [] -> forallb Js.isDigit ds = true ->
  Js.parseInt (string_of_list_ascii ds) = Some (Js.digitsValue ds).
Proof.
  intros Hne Hds. destruct ds as [|c ds]; [done|].
  pose proof Hds as [Hc _]%andb_prop.
  destruct (isDigit_plain c Hc) as (Hws & Hm & Hp).
  unfold Js.parseInt. cbn [string_of_list_ascii Js.trimStart]. rewrite Hws.
  assert (Hsign : Js.takeSign (String c (string_of_list_ascii ds))
                  = (1, String c (string_of_list_ascii ds))).
  { unfold Js.takeSign.
    destruct c as [[] [] [] [] [] [] [] []]; try done. }
  rewrite Hsign.
  change (String c (string_of_list_ascii ds)) with (string_of_list_ascii (c :: ds)).
  rewrite (spanDigits_all (c :: ds) Hds). f_equal. lia.
Qed.

Lemma toUpperCase_letter a :
  a ∈ ["A"; "B"; "C"; "D"] -> Js.toUpperCase a = a.
Proof.
  rewrite !elem_of_cons, elem_of_nil. intros [->|[->|[->|[->|[]]]]]; reflexivity.
Qed.

Lemma answerMatch_groups text m :
  answerMatch text m ->
  Js.parseInt (Regex.group m 1) = Some (fst (entryOf m)) /\
  Js.toUpperCase (Regex.group m 2) = snd (entryOf m).
Proof.
  intros (_ & ds & a & Hg & Hne & Hds & Ha & _).
  unfold entryOf, Regex.group. rewrite Hg. simpl.
  rewrite list_ascii_of_string_of_list_ascii.
  split; [by apply parseInt_digits|by apply toUpperCase_letter].
Qed.

(** The loop stores the entry of every match of the scan, in order, and
    counts the matches; one unit of fuel more than there are matches is
    enough. *)
Lemma textLoop_scan text from ms :
  Scan text from ms ->
  Forall (answerMatch text) ms ->
  forall fuel key n,
    (length ms < fuel)%nat ->
    textLoop fuel text from key n
    = Some (foldl (fun key p => <[fst p := snd p]> key) key (entryOf <$> ms),
            (n + length ms)%nat).
Proof.
  induction 1 as [from Hnone|from m ms Hsome _ IH]; intros Hall fuel key n Hfuel.
  - destruct fuel as [|fuel]; [simpl in Hfuel; lia|]. simpl. rewrite Hnone.
    by rewrite Nat.add_0_r.
  - destruct fuel as [|fuel]; [simpl in Hfuel; lia|]. simpl. rewrite Hsome.
    apply Forall_cons in Hall as [Hm Hall].
    destruct (answerMatch_groups text m Hm) as [-> ->].
    rewrite IH by (done || simpl in Hfuel; lia). f_equal. f_equal. lia.
Qed.

(** The scan of a text ends: from any position inside the text there is
    a finite sequence of results, no longer than the rest of the text. *)
Lemma scan_exists text : forall k from,
  (String.length text - from <= k)%nat -> (from <= String.length text)%nat ->
  exists ms,
    Scan text from ms /\ Forall (answerMatch text) ms /\
    (length ms <= String.length text - from)%nat.
Proof.
  induction k as [|k IH]; intros from Hk Hfrom.
  - destruct (Regex.exec answerPattern text from) as [m|] eqn:E.
    + apply exec_Some in E as (Hi & [Hb _] & _). lia.
    + exists []. repeat split; [by constructor|constructor|simpl; lia].
  - destruct (Regex.exec answerPattern text from) as [m|] eqn:E.
    + pose proof (exec_Some _ _ _ E) as (Hi & Hm & _).
      pose proof Hm as [Hb _].
      destruct (IH (Regex.lastIndex m)) as (ms & Hscan & Hall & Hlen); [lia|lia|].
      exists (m :: ms). repeat split; [by econstructor|by constructor|simpl; lia].
    + exists []. repeat split; [by constructor|constructor|simpl; lia].
Qed.

Lemma Scan_unique text from ms :
  Scan text from ms -> forall ms', Scan text from ms' -> ms = ms'.
Proof.
  induction 1 as [from Hnone|from m ms Hsome _ IH]; intros ms' H'.
  - inversion H' as [|? m' ? Hsome']; [done|congruence].
  - inversion H' as [? Hnone'|? m' ms'' Hsome' Hscan']; subst; [congruence|].
    rewrite Hsome in Hsome'. injection Hsome' as <-. f_equal. by apply IH.
Qed.

(** With the fuel it is given, the loop of [parseAnswerKeyFromText] runs
    until [exec] gives [null]. *)
Lemma textLoop_total text :
  exists ms,
    Scan text 0 ms /\ Forall (answerMatch text) ms /\
    textLoop (S (String.length text)) text 0 ∅ 0
    = Some (keyOfPairs (entryOf <$> ms), length ms).
Proof.
  destruct (scan_exists text (String.length text) 0) as (ms & Hscan & Hall & Hlen);
    [lia|lia|].
  exists ms. split; [done|]. split; [done|].
  rewrite (textLoop_scan text 0 ms Hscan Hall) by lia. done.
Qed.

(** The parse of a text, by the matches of its scan. *)
Lemma text_parse_result text s :
  exists ms,
    Scan text 0 ms /\ Forall (answerMatch text) ms /\
    parseAnswerKeyFromText text s
    = Some (match ms with
            | [] => showError CheckArea MsgNoAnswersPdf s
            | _ => keyLoaded (entryOf <$> ms) s
            end).
Proof.
  destruct (textLoop_total text) as (ms & Hscan & Hall & Hloop).
  exists ms. split; [done|]. split; [done|].
  unfold parseAnswerKeyFromText. rewrite Hloop.
  destruct ms as [|m ms]; [done|]. unfold keyLoaded. by rewrite length_fmap.
Qed.

Lemma isDigit_chars c : Js.isDigit c = bool_decide (c ∈ digitChars).
Proof. destruct c as [[] [] [] [] [] [] [] []]; vm_compute; reflexivity. Qed.

Lemma isWhiteSpace_chars c : Js.isWhiteSpace c = bool_decide (c ∈ blankChars).
Proof. destruct c as [[] [] [] [] [] [] [] []]; vm_compute; reflexivity. Qed.

Lemma isSeparator_chars c : isSeparator c = bool_decide (c ∈ separatorChars).
Proof. destruct c as [[] [] [] [] [] [] [] []]; vm_compute; reflexivity. Qed.

Lemma isAtoD_chars c : isAtoD c = bool_decide (c ∈ answerChars).
Proof. destruct c as [[] [] [] [] [] [] [] []]; vm_compute; reflexivity. Qed.

Lemma isWordChar_chars c : Js.isWordChar c = bool_decide (c ∈ wordChars).
Proof. destruct c as [[] [] [] [] [] [] [] []]; vm_compute; reflexivity. Qed.

Lemma inClass_charIn p set l i :
  (forall c, p c = bool_decide (c ∈ set)) ->
  Regex.inClass p l i = true <-> charIn set l i.
Proof.
  intros Hp. unfold Regex.inClass, charIn. destruct (l !! i) as [c|].
  - rewrite Hp, bool_decide_eq_true. split; [by exists c|]. by intros (c' & [= <-] & H).
  - split; [done|]. by intros (c' & [=] & _).
Qed.

Lemma answerChars_word c : c ∈ answerChars -> Js.isWordChar c = true.
Proof.
  unfold answerChars. simpl. rewrite !elem_of_cons, elem_of_nil.
  intros [->|[->|[->|[->|[]]]]]; reflexivity.
Qed.

(** A match of the regular expression is an occurrence of the pattern,
    and its groups are the digits and the letter. *)
Lemma occurrence_of_match l i j cs :
  Matches l answerPattern i j cs ->
  exists q a,
    Occurrence wordChars l i j q a /\
    entryOf (Regex.mkResult i j (Regex.slice l <$> cs)) = (q, a).
Proof.
  intros (d & n1 & o & n2 & lp & -> & -> & Hlp & Ho & Hdig & Hw1 & Hsep & Hw2 & Hlet & Hb)
           %answerPattern_shape.
  pose proof Hlet as Hlet'. unfold Regex.inClass in Hlet'.
  destruct (l !! lp) as [c|] eqn:Ec; [|done].
  rewrite isAtoD_chars, bool_decide_eq_true in Hlet'.
  exists (Js.digitsValue (take (S d) (drop i l))), (String c EmptyString). split.
  - exists d, n1, o, n2, c.
    split; [intros t Ht; apply (inClass_charIn _ _ _ _ isDigit_chars), Hdig; lia|].
    split; [intros t Ht; apply (inClass_charIn _ _ _ _ isWhiteSpace_chars), Hw1; lia|].
    split; [done|].
    split; [intros Ho1; replace (i + S d + n1)%nat with (S i + d + n1)%nat by lia;
            apply (inClass_charIn _ _ _ _ isSeparator_chars), Hsep, Ho1|].
    split; [intros t Ht; apply (inClass_charIn _ _ _ _ isWhiteSpace_chars), Hw2; lia|].
    replace (i + S d + n1 + o + n2)%nat with lp by lia.
    split; [done|]. split; [done|]. split; [done|]. split; [|done].
    intros c' Ec'. unfold Regex.atBoundary, Regex.inClass in Hb. rewrite Ec, Ec' in Hb.
    rewrite (answerChars_word c Hlet'), isWordChar_chars in Hb.
    destruct (bool_decide (c' ∈ wordChars)) eqn:E; [done|].
    by apply bool_decide_eq_false in E.
  - unfold entryOf, Regex.group, Regex.slice. simpl.
    replace (S (i + d) - i)%nat with (S d) by lia.
    replace (S lp - lp)%nat with 1%nat by lia.
    by rewrite list_ascii_of_string_of_list_ascii, (drop_S l c lp Ec).
Qed.

(** An occurrence of the pattern is a match of the regular expression. *)
Lemma match_of_occurrence l i j q a :
  Occurrence wordChars l i j q a -> exists cs, Matches l answerPattern i j cs.
Proof.
  intros (d & n1 & o & n2 & c & Hdig & Hw1 & Ho & Hsep & Hw2 & Ec & Hc & -> & Hafter & _ & _).
  assert (H1 : Matches l (Regex.Cap (Regex.Plus Js.isDigit)) i (S i + d)
                 ([] ++ [(i, S i + d)%nat])).
  { constructor. constructor. intros t Ht.
    apply (inClass_charIn _ _ _ _ isDigit_chars), Hdig. lia. }
  assert (H2 : Matches l (Regex.Star Js.isWhiteSpace) (S i + d) (S i + d + n1) []).
  { constructor. intros t Ht.
    apply (inClass_charIn _ _ _ _ isWhiteSpace_chars), Hw1. lia. }
  assert (H3 : Matches l (Regex.Opt isSeparator) (S i + d + n1) (S i + d + n1 + o) []).
  { destruct o as [|[|o]]; [| |lia].
    - rewrite Nat.add_0_r. constructor.
    - replace (S i + d + n1 + 1)%nat with (S (S i + d + n1)) by lia. constructor.
      apply (inClass_charIn _ _ _ _ isSeparator_chars).
      replace (S i + d + n1)%nat with (i + S d + n1)%nat by lia. by apply Hsep. }
  assert (H4 : Matches l (Regex.Star Js.isWhiteSpace) (S i + d + n1 + o)
                 (S i + d + n1 + o + n2) []).
  { constructor. intros t Ht.
    apply (inClass_charIn _ _ _ _ isWhiteSpace_chars), Hw2. lia. }
  replace (i + S d + n1 + o + n2)%nat with (S i + d + n1 + o + n2)%nat in * by lia.
  set (lp := (S i + d + n1 + o + n2)%nat) in *.
  assert (H5 : Matches l (Regex.Cap (Regex.Class isAtoD)) lp (S lp) ([] ++ [(lp, S lp)])).
  { constructor. constructor. unfold Regex.inClass. rewrite Ec.
    by rewrite isAtoD_chars, bool_decide_eq_true. }
  assert (H6 : Matches l Regex.Boundary (S lp) (S lp) []).
  { constructor. unfold Regex.atBoundary, Regex.inClass. rewrite Ec.
    rewrite (answerChars_word c Hc). destruct (l !! S lp) as [c'|] eqn:Ec'; [|done].
    rewrite isWordChar_chars. specialize (Hafter c' eq_refl).
    by rewrite bool_decide_eq_false_2. }
  eexists. unfold answerPattern.
  eapply Matches_Seq; [exact H1|].
  eapply Matches_Seq; [exact H2|].
  eapply Matches_Seq; [exact H3|].
  eapply Matches_Seq; [exact H4|].
  eapply Matches_Seq; [exact H5|exact H6].
Qed.

Lemma matchAt_None_no_occurrence l i j q a :
  Regex.matchAt answerPattern l i = None -> ~ Occurrence wordChars l i j q a.
Proof.
  intros Hnone [cs Hm]%match_of_occurrence. unfold Regex.matchAt in Hnone.
  pose proof (matchRe_complete _ _ _ _ _ Hm []
                (fun j c => Some (Regex.mkResult i j (Regex.slice l <$> c)))) as Hs.
  rewrite Hnone in Hs. by destruct Hs.
Qed.

Lemma occurrence_inside after l i j q a :
  Occurrence after l i j q a -> (i < j <= length l)%nat.
Proof.
  intros (d & n1 & o & n2 & c & _ & _ & _ & _ & _ & Ec & _ & -> & _).
  apply lookup_lt_Some in Ec. lia.
Qed.

(** The results of [exec], one after the other, are the leftmost scan of
    the text. *)
Lemma scan_leftmost text from ms :
  Scan text from ms ->
  LeftmostScan wordChars (list_ascii_of_string text) from (foundOf <$> ms).
Proof.
  induction 1 as [from Hnone|from m ms Hsome _ IH].
  - constructor. intros i j q a Hi Hocc.
    pose proof (occurrence_inside _ _ _ _ _ _ Hocc) as Hin.
    rewrite length_list_ascii in Hin.
    eapply matchAt_None_no_occurrence; [|exact Hocc].
    apply (exec_None text from Hnone). lia.
  - pose proof (exec_Some text from m Hsome) as (Hfrom & _ & Hbefore).
    unfold Regex.exec in Hsome.
    apply firstMatch_Some in Hsome as (pre & i & post & _ & Hm & _).
    apply matchAt_sound in Hm as (j & cs & Hmt & ->).
    destruct (occurrence_of_match _ _ _ _ Hmt) as (q & a & Hocc & He).
    rewrite fmap_cons. unfold foundOf at 1. rewrite He. simpl in *.
    constructor; [done|done| |done].
    intros i' j' q' a' Hi'. apply matchAt_None_no_occurrence, Hbefore. done.
Qed.

(** No digit is white space, a separator or a letter, and no letter from
    A to D is white space or a separator. *)
Lemma digit_apart c :
  c ∈ digitChars -> (c ∉ blankChars) /\ (c ∉ separatorChars) /\ (c ∉ answerChars).
Proof.
  intros H. apply (bool_decide_eq_true_2 _) in H.
  destruct c as [[] [] [] [] [] [] [] []]; try (vm_compute in H; discriminate H);
    (split; [|split]); apply (bool_decide_eq_false_1 _); vm_compute; reflexivity.
Qed.

Lemma answer_apart c : c ∈ answerChars -> (c ∉ blankChars) /\ (c ∉ separatorChars).
Proof.
  intros H. apply (bool_decide_eq_true_2 _) in H.
  destruct c as [[] [] [] [] [] [] [] []]; try (vm_compute in H; discriminate H);
    split; apply (bool_decide_eq_false_1 _); vm_compute; reflexivity.
Qed.

(** What an occurrence says about the text, without the split of the
    white space: the digits, then up to the letter only white space and
    separators, then the letter. *)
Lemma occurrence_layout after l i j q a :
  Occurrence after l i j q a ->
  exists d c,
    (forall t, (i <= t < i + S d)%nat -> charIn digitChars l t) /\
    (i + S d < j)%nat /\
    (forall t, (i + S d <= t < j - 1)%nat -> charIn (blankChars ++ separatorChars) l t) /\
    l !! (j - 1)%nat = Some c /\ c ∈ answerChars /\
    q = Js.digitsValue (take (S d) (drop i l)) /\ a = String c EmptyString.
Proof.
  intros (d & n1 & o & n2 & c & Hdig & Hw1 & Ho & Hsep & Hw2 & Ec & Hc & -> & _ & -> & ->).
  exists d, c. split; [done|]. split; [lia|]. split; [|split; [|done]].
  - intros t Ht.
    destruct (decide (t < i + S d + n1)%nat) as [H1|H1].
    { destruct (Hw1 t) as (x & Hx & Hin); [lia|]. exists x. split; [done|].
      apply elem_of_app. by left. }
    destruct (decide (t < i + S d + n1 + o)%nat) as [H2|H2].
    { assert (o = 1%nat) as Ho1 by lia. assert (t = (i + S d + n1)%nat) as -> by lia.
      destruct (Hsep Ho1) as (x & Hx & Hin). exists x. split; [done|].
      apply elem_of_app. by right. }
    destruct (Hw2 t) as (x & Hx & Hin); [lia|]. exists x. split; [done|].
    apply elem_of_app. by left.
  - simpl. by rewrite Nat.sub_0_r.
Qed.

(** At one position the text has at most one occurrence. *)
Lemma occurrence_unique after l i j q a j' q' a' :
  Occurrence after l i j q a -> Occurrence after l i j' q' a' ->
  j = j' /\ q = q' /\ a = a'.
Proof.
  intros (d & c & Hdig & Hj & Hmid & Ec & Hc & -> & ->)%occurrence_layout
         (d' & c' & Hdig' & Hj' & Hmid' & Ec' & Hc' & -> & ->)%occurrence_layout.
  assert (Hnd : forall (d1 d2 : nat) j1 c1,
            (forall t, (i <= t < i + S d2)%nat -> charIn digitChars l t) ->
            (i + S d1 < j1)%nat ->
            (forall t, (i + S d1 <= t < j1 - 1)%nat ->
               charIn (blankChars ++ separatorChars) l t) ->
            l !! (j1 - 1)%nat = Some c1 -> c1 ∈ answerChars ->
            (d2 <= d1)%nat).
  { intros d1 d2 j1 c1 Hd2 Hj1 Hm1 Ec1 Hc1.
    destruct (decide (d2 <= d1)%nat) as [|Hgt]; [done|]. exfalso.
    destruct (Hd2 (i + S d1)%nat) as (x & Hx & Hin); [lia|].
    destruct (digit_apart x Hin) as (Hb & Hs & Ha).
    destruct (decide (i + S d1 < j1 - 1)%nat) as [Hlt|Hge].
    - destruct (Hm1 (i + S d1)%nat) as (y & Hy & Hin'); [lia|].
      rewrite Hx in Hy. injection Hy as <-.
      apply elem_of_app in Hin' as [?|?]; done.
    - replace (j1 - 1)%nat with (i + S d1)%nat in Ec1 by lia.
      rewrite Hx in Ec1. injection Ec1 as <-. done. }
  assert (d = d') as <-.
  { pose proof (Hnd d d' j c Hdig' Hj Hmid Ec Hc).
    pose proof (Hnd d' d j' c' Hdig Hj' Hmid' Ec' Hc'). lia. }
  assert (Hle : forall j1 c1 j2,
            l !! (j1 - 1)%nat = Some c1 -> c1 ∈ answerChars -> (i + S d < j1)%nat ->
            (forall t, (i + S d <= t < j2 - 1)%nat ->
               charIn (blankChars ++ separatorChars) l t) ->
            (j2 <= j1)%nat).
  { intros j1 c1 j2 Ec1 Hc1 Hj1 Hm2.
    destruct (decide (j2 <= j1)%nat) as [|Hgt]; [done|]. exfalso.
    destruct (Hm2 (j1 - 1)%nat) as (y & Hy & Hin); [lia|].
    rewrite Ec1 in Hy. injection Hy as <-.
    destruct (answer_apart c1 Hc1) as [Hb Hs].
    apply elem_of_app in Hin as [?|?]; done. }
  assert (j = j') as <-.
  { pose proof (Hle j c j' Ec Hc Hj Hmid'). pose proof (Hle j' c' j Ec' Hc' Hj' Hmid). lia. }
  rewrite Ec in Ec'. injection Ec' as <-. done.
Qed.

(** The leftmost scan of a text is determined. *)
Lemma LeftmostScan_unique after l from found :
  LeftmostScan after l from found ->
  forall found', LeftmostScan after l from found' -> found' = found.
Proof.
  induction 1 as [from Hnone|from i j q a rest Hi Hocc Hbefore _ IH]; intros found' H'.
  - inversion H' as [|? i' j' q' a' rest' Hi' Hocc' _ _]; [done|]. subst.
    by destruct (Hnone i' j' q' a' Hi').
  - inversion H' as [? Hnone'|? i' j' q' a' rest' Hi' Hocc' Hbefore' Hrest']; subst.
    + by destruct (Hnone' i j q a Hi).
    + assert (i' = i) as ->.
      { destruct (decide (i' < i)%nat) as [Hlt|Hge];
          [by destruct (Hbefore i' j' q' a' (conj Hi' Hlt))|].
        destruct (decide (i < i')%nat) as [Hlt|Hge'];
          [by destruct (Hbefore' i j q a (conj Hi Hlt))|]. lia. }
      destruct (occurrence_unique _ _ _ _ _ _ _ _ _ Hocc' Hocc) as (-> & -> & ->).
      f_equal. by apply IH.
Qed.

Lemma pairOf_foundOf (ms : list Regex.result) :
  pairOf <$> (foundOf <$> ms) = entryOf <$> ms.
Proof.
  rewrite <- list_fmap_compose. apply list_fmap_ext. intros _ m _.
  cbv [compose pairOf foundOf question letter]. by destruct (entryOf m).
Qed.

(** C3, as stated, fails: the pattern of the specification takes a
    letter that no letter or digit follows.  The text "1 A_" has
    such an occurrence, from position 0 to position 3, for question 1 and
    the letter A; but an underscore follows the letter, the regular
    expression has no word boundary there, and the parse finds no answer:
    it shows its error and the key stays as it was. *)
Lemma text_parsing_counterexample :
  Occurrence alphanumericChars (list_ascii_of_string "1 A_") 0 3 1 "A" /\
  LeftmostScan wordChars (list_ascii_of_string "1 A_") 0 [] /\
  checkError <$> parseAnswerKeyFromText "1 A_" sampleUploaded
  = Some (Some MsgNoAnswersPdf) /\
  answerKey <$> parseAnswerKeyFromText "1 A_" sampleUploaded
  = Some (answerKey sampleUploaded).
Proof.
  split; [|split; [|split]].
  - exists 0%nat, 1%nat, 0%nat, 0%nat, "A"%char.
    split; [intros t Ht; assert (t = 0%nat) as -> by lia; exists "1"%char; split;
            [reflexivity|apply (bool_decide_eq_true_1 _); vm_compute; reflexivity]|].
    split; [intros t Ht; assert (t = 1%nat) as -> by lia; exists " "%char; split;
            [reflexivity|apply (bool_decide_eq_true_1 _); vm_compute; reflexivity]|].
    split; [lia|]. split; [lia|]. split; [intros t Ht; lia|].
    split; [reflexivity|].
    split; [apply (bool_decide_eq_true_1 _); vm_compute; reflexivity|].
    split; [reflexivity|]. split; [|split; reflexivity].
    intros c' [= <-]. apply (bool_decide_eq_false_1 _). vm_compute. reflexivity.
  - apply (scan_leftmost "1 A_" 0 []). constructor. vm_compute. reflexivity.
  - vm_compute. reflexivity.
  - vm_compute. reflexivity.
Qed.

(** C3, amended.  The parse takes the occurrences of the pattern from
    left to right: digits, then white space, at most one of the
    separators colon, full stop and hyphen, and white space again, then a
    letter from A to D after which the text ends or goes on with a
    character that is no letter, no digit and no underscore.  Each time
    it takes the occurrence that starts first, at or after the end of the
    one before, until none starts in the rest of the text; that sequence
    is determined by the text.  With no occurrence the parse only shows
    its error.  Otherwise it stores the letter of every occurrence under
    the number of its digits, in order, so that of several occurrences
    for one question the last stands; it empties the manual-key field,
    hides the error and reports the number of occurrences.  The text
    "1. A 2-B 3:C 4 D" gives the key 1:A, 2:B, 3:C, 4:D and the text
    "5-A 5-B" gives the key 5:B; a letter after another separator or
    after two separators, a lower-case letter, a letter outside A to D
    and a letter that a letter, a digit or an underscore follows give
    no answer. *)
Theorem text_parsing (text : string) (s : State) :
  (exists found,
     LeftmostScan wordChars (list_ascii_of_string text) 0 found /\
     (forall found',
        LeftmostScan wordChars (list_ascii_of_string text) 0 found' -> found' = found) /\
     parseAnswerKeyFromText text s
     = Some (match found with
             | [] =>
                 mkState (totalQuestions s) (correctMarks s) (wrongMarks s) (answerKey s)
                   (timerRunning s) (isGraded s) (questionCountInput s)
                   (correctMarksInput s) (wrongMarksInput s) (manualKeyInput s)
                   (configError s) (Some MsgNoAnswersPdf) (statusMessage s) (sheet s)
                   (confirmModalHidden s) (results s) (checkBtnOnclick s)
             | _ =>
                 mkState (totalQuestions s) (correctMarks s) (wrongMarks s)
                   (keyOfPairs (pairOf <$> found))
                   (timerRunning s) (isGraded s) (questionCountInput s)
                   (correctMarksInput s) (wrongMarksInput s) EmptyString
                   (configError s) None (Some (StatusLoaded (length found))) (sheet s)
                   (confirmModalHidden s) (results s) (checkBtnOnclick s)
             end) /\
     (forall q a,
        keyOfPairs (pairOf <$> found) !! q = Some a <->
        exists pre f post,
          found = pre ++ f :: post /\ question f = q /\ letter f = a /\
          q ∉ (question <$> post))) /\
  answerKey <$> parseAnswerKeyFromText "1. A 2-B 3:C 4 D" s
  = Some (list_to_map [(1, "A"); (2, "B"); (3, "C"); (4, "D")]) /\
  answerKey <$> parseAnswerKeyFromText "5-A 5-B" s
  = Some (list_to_map [(5, "B")]) /\
  answerKey <$> parseAnswerKeyFromText "Q12 :  C, 007-D; 3.A. 45B" s
  = Some (list_to_map [(12, "C"); (7, "D"); (3, "A"); (45, "B")]) /\
  Forall (fun t =>
            parseAnswerKeyFromText t s
            = Some (mkState (totalQuestions s) (correctMarks s) (wrongMarks s)
                      (answerKey s) (timerRunning s) (isGraded s) (questionCountInput s)
                      (correctMarksInput s) (wrongMarksInput s) (manualKeyInput s)
                      (configError s) (Some MsgNoAnswersPdf) (statusMessage s) (sheet s)
                      (confirmModalHidden s) (results s) (checkBtnOnclick s)))
    ["2)B"; "12AB"; "1 A_"; "6-A7"; "3 a"; "4 :- D"; "7 E"; "B 5"; "9"].
Proof.
  split; [|split; [|split; [|split]]].
  - destruct (text_parse_result text s) as (ms & Hscan & _ & Hparse).
    pose proof (scan_leftmost text 0 ms Hscan) as Hleft.
    exists (foundOf <$> ms). split; [done|].
    split; [apply LeftmostScan_unique, Hleft|]. split.
    + rewrite Hparse, pairOf_foundOf. destruct ms as [|m ms]; [reflexivity|].
      unfold keyLoaded. rewrite !length_fmap. reflexivity.
    + intros q a. rewrite keyOfPairs_lookup. split.
      * intros (pre & post & Heq & Hq).
        apply fmap_app_inv in Heq as (pre' & rest & -> & Hrest & ->).
        symmetry in Hrest. apply fmap_cons_inv in Hrest as (f & post' & Hf & -> & ->).
        unfold pairOf in Hf. injection Hf as -> ->. exists pre', f, post'.
        split; [done|]. split; [done|]. split; [done|].
        by rewrite <- list_fmap_compose in Hq.
      * intros (pre & f & post & -> & <- & <- & Hq).
        exists (pairOf <$> pre), (pairOf <$> post).
        split; [by rewrite fmap_app, fmap_cons|]. by rewrite <- list_fmap_compose.
  - unfold parseAnswerKeyFromText.
    replace (textLoop _ _ _ _ _)
      with (Some (list_to_map [(1, "A"); (2, "B"); (3, "C"); (4, "D")] : gmap Z string,
                  4%nat))
      by (vm_compute; reflexivity).
    done.
  - unfold parseAnswerKeyFromText.
    replace (textLoop _ _ _ _ _)
      with (Some (list_to_map [(5, "B")] : gmap Z string, 2%nat))
      by (vm_compute; reflexivity).
    done.
  - unfold parseAnswerKeyFromText.
    replace (textLoop _ _ _ _ _)
      with (Some (list_to_map [(12, "C"); (7, "D"); (3, "A"); (45, "B")] : gmap Z string,
                  4%nat))
      by (vm_compute; reflexivity).
    done.
  - repeat constructor; unfold parseAnswerKeyFromText;
      replace (textLoop _ _ _ _ _) with (Some (∅ : gmap Z string, 0%nat))
        by (vm_compute; reflexivity);
      reflexivity.
Qed.

(** ** Failing parses *)

(** C7. A parse that fails leaves the stored key as it was: a manual key
    of the wrong length, a spreadsheet without an accepted row and a text
    without a match only show their error.  And whatever the input, after
    a parse the stored key is either the one from before or the key of a
    parse that succeeded. *)
Theorem failed_parse_keeps_key (s : State) :
  (nonEmpty (Js.trim (manualKeyInput s)) = true ->
   String.length (Js.trim (manualKeyInput s)) <> totalQuestions s ->
   answerKey (stateOf (handleCheckAnswers s)) = answerKey s /\
   checkError (stateOf (handleCheckAnswers s))
   = Some (MsgManualKeyLength (String.length (Js.trim (manualKeyInput s)))
             (totalQuestions s))) /\
  (forall data,
     omap acceptedPair data = [] ->
     parseAnswerKeyFromExcel data s = showError CheckArea MsgNoAnswersExcel s /\
     answerKey (parseAnswerKeyFromExcel data s) = answerKey s) /\
  (forall text,
     Scan text 0 [] ->
     parseAnswerKeyFromText text s = Some (showError CheckArea MsgNoAnswersPdf s) /\
     answerKey <$> parseAnswerKeyFromText text s = Some (answerKey s)) /\
  (answerKey (stateOf (handleCheckAnswers s)) = answerKey s \/
   nonEmpty (Js.trim (manualKeyInput s)) = true /\
   String.length (Js.trim (manualKeyInput s)) = totalQuestions s /\
   answerKey (stateOf (handleCheckAnswers s))
   = manualAnswerKey (Js.toUpperCase (Js.trim (manualKeyInput s)))) /\
  (forall data,
     answerKey (parseAnswerKeyFromExcel data s) = answerKey s \/
     omap acceptedPair data <> [] /\
     answerKey (parseAnswerKeyFromExcel data s) = keyOfPairs (omap acceptedPair data)) /\
  (forall text,
     exists s' ms,
       parseAnswerKeyFromText text s = Some s' /\ Scan text 0 ms /\
       (answerKey s' = answerKey s \/
        ms <> [] /\ answerKey s' = keyOfPairs (entryOf <$> ms))).
Proof.
  split; [|split; [|split; [|split; [|split]]]].
  - intros Hne Hlen. by rewrite handleCheckAnswers_manual_mismatch.
  - intros data Hnone. rewrite excel_parse_result. by rewrite Hnone.
  - intros text Hscan.
    destruct (text_parse_result text s) as (ms & Hscan' & _ & ->).
    by rewrite (Scan_unique _ _ _ Hscan' _ Hscan).
  - destruct (nonEmpty (Js.trim (manualKeyInput s))) eqn:Hne.
    + destruct (decide (String.length (Js.trim (manualKeyInput s)) = totalQuestions s))
        as [Hlen|Hlen].
      * right. rewrite handleCheckAnswers_manual_match by done.
        split; [done|]. split; [done|].
        by destruct (gradeSheet_keeps
                       (set_answerKey
                          (manualAnswerKey
                             (Js.toUpperCase (Js.trim (manualKeyInput s)))) s))
          as (-> & _).
      * left. by rewrite handleCheckAnswers_manual_mismatch.
    + left. destruct (decide (answerKey s = ∅)) as [Hk|Hk].
      * by rewrite handleCheckAnswers_no_key.
      * rewrite handleCheckAnswers_uploaded by done.
        destruct (decide _); [|done]. by destruct (gradeSheet_keeps s) as (-> & _).
  - intros data. rewrite excel_parse_result.
    destruct (omap acceptedPair data) as [|p ps]; [by left|by right].
  - intros text.
    destruct (text_parse_result text s) as (ms & Hscan & _ & Hp).
    eexists _, ms. split; [exact Hp|]. split; [done|].
    destruct ms as [|m ms]; [by left|by right].
Qed.

(** The three failing parses on the sample sheet with its uploaded key. *)
Lemma failed_parse_keeps_key_witness :
  answerKey (stateOf (handleCheckAnswers sampleBoth)) = answerKey sampleUploaded /\
  answerKey (parseAnswerKeyFromExcel [[CString "Q"; CString "Answer"]; [CNumber 1]]
               sampleUploaded)
  = answerKey sampleUploaded /\
  answerKey <$> parseAnswerKeyFromText "no answers on this page" sampleUploaded
  = Some (answerKey sampleUploaded).
Proof.
  destruct (failed_parse_keeps_key sampleBoth) as (Hmanual & _).
  destruct (failed_parse_keeps_key sampleUploaded) as (_ & Hexcel & Htext & _).
  split; [|split].
  - destruct Hmanual as [Hkey _]; [reflexivity| |exact Hkey].
    change (3 <> 4)%nat. lia.
  - apply Hexcel. reflexivity.
  - apply Htext. constructor. vm_compute. reflexivity.
Defined.

(** ** Invariants of a session *)

Lemma gradeQuestion_length key i t :
  match gradeQuestion key i t with
  | inl t' => length (rows t') = length (rows t)
  | inr rs => length rs = length (rows t)
  end.
Proof.
  unfold gradeQuestion. destruct (rows t !! (i - 1)%nat) as [row|]; [|done].
  destruct (checked row) as [o|]; simpl; [|by rewrite length_insert].
  destruct (sameAnswer o (key !! Z.of_nat i)); simpl; [by rewrite length_insert|].
  destruct (queryCorrectLabel (key !! Z.of_nat i)); simpl; by rewrite length_insert.
Qed.

Lemma gradeLoop_length key todo : forall t,
  match gradeLoop key todo t with
  | inl t' => length (rows t') = length (rows t)
  | inr rs => length rs = length (rows t)
  end.
Proof.
  induction todo as [|i todo IH]; intros t; simpl; [done|].
  pose proof (gradeQuestion_length key i t) as H.
  destruct (gradeQuestion key i t) as [t1|rs]; [|done].
  specialize (IH t1). destruct (gradeLoop key todo t1); congruence.
Qed.

(** Grading, finished or not, keeps the number of rows and of
    questions. *)
Lemma gradeSheet_sheetComplete s :
  sheetComplete s -> sheetComplete (stateOf (gradeSheet s)).
Proof.
  unfold sheetComplete, gradeSheet. intros H.
  pose proof (gradeLoop_length (answerKey s) (seq 1 (totalQuestions s))
                (mkTally 0 0 0 (sheet s))) as Hl.
  simpl in *. destruct (gradeLoop _ _ _); simpl in *; congruence.
Qed.

Lemma handleCheckAnswers_sheetComplete s :
  sheetComplete s -> sheetComplete (stateOf (handleCheckAnswers s)).
Proof.
  intros H. unfold handleCheckAnswers.
  repeat match goal with
         | |- context [if ?b then _ else _] => destruct b
         end; try done; by apply gradeSheet_sheetComplete.
Qed.

Lemma step_sheetComplete e s : sheetComplete s -> sheetComplete (step e s).
Proof.
  intros H. destruct e; simpl; try done.
  - unfold generateOMRSheet.
    destruct (Js.parseInt (questionCountInput s)) as [count|]; [|done].
    destruct ((count <? 1) || (200 <? count)); [done|].
    unfold sheetComplete. simpl. by rewrite !length_fmap, length_seq.
  - unfold clickOption, sheetComplete in *. destruct i as [|j]; [done|].
    destruct (sheet s !! j) as [row|]; [|done].
    destruct (disabled row); [done|]. simpl. by rewrite length_insert.
  - unfold clickClear, clearSelection, sheetComplete in *. destruct i as [|j]; [done|].
    destruct (sheet s !! j) as [row|]; [|done].
    destruct (clearHidden row); [done|]. simpl. by rewrite length_insert.
  - unfold clickCheck.
    pose proof (handleCheckAnswers_sheetComplete s H) as H1.
    destruct (checkBtnOnclick (stateOf (handleCheckAnswers s))); [done| |done].
    by apply handleCheckAnswers_sheetComplete.
  - unfold sheetComplete in *. simpl. by rewrite length_fmap.
  - unfold parseAnswerKeyFromExcel.
    destruct (foldl excelRow (∅, 0%nat) data) as [newKey parsedCount].
    by destruct (0 <? parsedCount)%nat.
  - unfold parseAnswerKeyFromText.
    destruct (textLoop _ _ _ _ _) as [[newKey parsedCount]|]; [|done]. simpl.
    by destruct (0 <? parsedCount)%nat.
Qed.

(** In every state of a session each question has its row, so grading
    never meets a missing row. *)
Theorem reachable_sheetComplete (s : State) (H : reachable s) : sheetComplete s.
Proof.
  induction H as [|e s _ IH]; [done|]. by apply step_sheetComplete.
Qed.

(** A key whose answers are all among A, B, C and D, as every uploaded
    key is, never breaks the selector. *)
Lemma keyOfPairs_selectorSafe pairs n :
  Forall (fun p => snd p ∈ ["A"; "B"; "C"; "D"]) pairs ->
  keySelectorSafe (keyOfPairs pairs) n = true.
Proof.
  intros Hall. unfold keySelectorSafe. apply forallb_forall. intros i _.
  unfold selectorSafeAt.
  destruct (keyOfPairs pairs !! Z.of_nat i) as [a|] eqn:E; [|done].
  apply keyOfPairs_lookup in E as (pre & post & -> & _).
  apply Forall_app in Hall as [_ Hall]. apply Forall_cons in Hall as [Ha _].
  simpl in Ha. rewrite !elem_of_cons, elem_of_nil in Ha.
  destruct Ha as [->|[->|[->|[->|[]]]]]; reflexivity.
Qed.

(** ** Further properties of a session *)

Lemma reachable_run es : forall s, reachable s -> reachable (run es s).
Proof.
  induction es as [|e es IH]; intros s H; simpl; [done|].
  apply IH. by constructor.
Qed.

Lemma sampleUploaded_reachable : reachable sampleUploaded.
Proof. constructor. apply reachable_run. constructor. Qed.

(** The sample session is a session. *)
Lemma reachable_sheetComplete_witness : sheetComplete sampleUploaded.
Proof. exact (reachable_sheetComplete sampleUploaded sampleUploaded_reachable). Defined.

Lemma fmap_seq_const {A} (x : A) n : forall a, (fun _ => x) <$> seq a n = replicate n x.
Proof. induction n as [|n IH]; intros a; simpl; [done|]. by rewrite IH. Qed.

(** Generating a sheet: a question count from 1 to 200 gives that many
    rows, none of them selected, an empty key and a running timer; any
    other input only shows the error of the configuration area. *)
Theorem generate_sheet (s : State) :
  match Js.parseInt (questionCountInput s) with
  | Some n =>
      if decide (1 <= n <= 200) then
        totalQuestions (generateOMRSheet s) = Z.to_nat n /\
        sheet (generateOMRSheet s) = replicate (Z.to_nat n) (mkRow None false true None []) /\
        answerKey (generateOMRSheet s) = ∅ /\
        isGraded (generateOMRSheet s) = false /\
        timerRunning (generateOMRSheet s) = true /\
        configError (generateOMRSheet s) = None
      else generateOMRSheet s = showError ConfigArea MsgQuestionCount s
  | None => generateOMRSheet s = showError ConfigArea MsgQuestionCount s
  end.
Proof.
  unfold generateOMRSheet.
  destruct (Js.parseInt (questionCountInput s)) as [n|]; [|done].
  destruct (decide (1 <= n <= 200)) as [Hn|Hn].
  - replace ((n <? 1) || (200 <? n)) with false by lia. simpl.
    repeat split. rewrite <- list_fmap_compose.
    rewrite <- (fmap_seq_const (mkRow None false true None []) _ 1).
    by apply list_fmap_ext.
  - replace ((n <? 1) || (200 <? n)) with true by lia. done.
Qed.

Lemma addRing_idem o rs : addRing o (addRing o rs) = addRing o rs.
Proof.
  unfold addRing. destruct (decide (o ∈ rs)) as [Hin|Hin].
  - by rewrite decide_True.
  - rewrite decide_True; [done|]. apply elem_of_app. right. by apply list_elem_of_singleton.
Qed.

Lemma gradedRow_idem key i row :
  gradedRow key i (gradedRow key i row) = gradedRow key i row.
Proof.
  unfold gradedRow. simpl.
  destruct (classify key (checked row) i); simpl; try done.
  destruct (queryCorrectLabel (key !! Z.of_nat i)); simpl; try done.
  by rewrite addRing_idem.
Qed.

Lemma selectedIn_gradeLoop key m t t' :
  gradeLoop key (seq 1 m) t = inl t' ->
  forall i, selectedIn (rows t') i = selectedIn (rows t) i.
Proof.
  intros H i. destruct (gradeLoop_inl key m 1 t t' (le_n 1) H)
    as (_ & _ & _ & _ & Hin & Hout).
  unfold selectedIn.
  destruct (decide (1 <= i < 1 + m)%nat) as [Hi|Hi].
  - destruct (Hin i Hi) as (row & -> & ->). done.
  - destruct (decide (i = 0%nat)) as [->|Hne].
    + simpl. destruct m as [|m].
      * by rewrite Hout by lia.
      * destruct (Hin 1%nat) as (row & Hr & Hr'); [lia|]. simpl in *.
        by rewrite Hr, Hr'.
    + by rewrite Hout by lia.
Qed.

(** Grading again, with nothing changed in between, gives the same
    state: the same rows and the same results. *)
Theorem grading_idempotent (s : State)
    (Hrows : sheetComplete s)
    (Hkey : keySelectorSafe (answerKey s) (totalQuestions s) = true) :
  exists s', gradeSheet s = Done s' /\ gradeSheet s' = Done s'.
Proof.
  destruct (gradeSheet_completes s Hrows Hkey) as [s' Hs'].
  exists s'. split; [done|].
  pose proof (gradeSheet_Done s s' Hs')
    as (t & Ht & Hr & Hsheet & Hn & Hk & Hg & Htm & Herr).
  pose proof (gradeLoop_inl _ _ _ _ _ (le_n 1) Ht) as (Hlen & Hc & Hi & Hu & Hin & Hout).
  simpl in Hlen, Hc, Hi, Hu, Hin, Hout.
  assert (Hrows' : sheetComplete s').
  { unfold sheetComplete in *. rewrite Hsheet, Hn. congruence. }
  assert (Hkey' : keySelectorSafe (answerKey s') (totalQuestions s') = true)
    by (by rewrite Hk, Hn).
  destruct (gradeSheet_completes s' Hrows' Hkey') as [s'' Hs''].
  rewrite Hs''. f_equal.
  pose proof (gradeSheet_Done s' s'' Hs'')
    as (t' & Ht' & Hr' & Hsheet' & Hn' & Hk' & Hg' & Htm' & Herr').
  rewrite Hk, Hn, Hsheet in Ht'.
  pose proof (gradeLoop_inl _ _ _ _ _ (le_n 1) Ht')
    as (Hlen' & Hc' & Hi' & Hu' & Hin' & Hout').
  simpl in Hlen', Hc', Hi', Hu', Hin', Hout'.
  assert (Hsame : rows t' = rows t).
  { apply list_eq. intros j.
    destruct (decide (j < totalQuestions s)%nat) as [Hj|Hj].
    - destruct (Hin (S j)) as (row & Hrow & Hg1); [lia|].
      destruct (Hin' (S j)) as (row' & Hrow' & Hg2); [lia|].
      simpl in *. rewrite Nat.sub_0_r in *.
      rewrite Hg1 in Hrow'. injection Hrow' as <-.
      by rewrite Hg1, Hg2, gradedRow_idem.
    - rewrite Hout' by lia. done. }
  assert (Hcount : forall x,
    countOutcome (answerKey s) (rows t) (seq 1 (totalQuestions s)) x
    = countOutcome (answerKey s) (sheet s) (seq 1 (totalQuestions s)) x).
  { intros x. apply countOutcome_ext. intros i _.
    apply (selectedIn_gradeLoop _ _ _ _ Ht). }
  rewrite !Hcount in *.
  unfold gradeSheet in Hs''. simpl in Hs''.
  destruct (gradeLoop (answerKey s') _ _) as [t2|] eqn:E2; [|done].
  injection Hs'' as <-.
  unfold gradeSheet in Hs'. simpl in Hs'. rewrite Ht in Hs'. injection Hs' as <-.
  simpl in *. rewrite Ht' in E2. injection E2 as <-.
  rewrite Hsame. by rewrite Hc, Hc', Hi, Hi', Hu, Hu'.
Qed.

(** Grading the sample sheet twice. *)
Lemma grading_idempotent_witness :
  exists s', gradeSheet sampleUploaded = Done s' /\ gradeSheet s' = Done s'.
Proof. exact (grading_idempotent sampleUploaded eq_refl eq_refl). Defined.

Lemma acceptedPair_letter row p :
  acceptedPair row = Some p -> snd p ∈ ["A"; "B"; "C"; "D"].
Proof.
  unfold acceptedPair.
  destruct (Js.parseInt (toString (field row 0))) as [q|]; [|done].
  destruct (decide (_ ∈ _)) as [Hin|]; [|done]. by intros [= <-].
Qed.

Lemma accepted_letters data :
  Forall (fun p => snd p ∈ ["A"; "B"; "C"; "D"]) (omap acceptedPair data).
Proof.
  apply Forall_forall. intros p (row & _ & Hp)%list_elem_of_omap.
  by eapply acceptedPair_letter.
Qed.

(** A key uploaded as a spreadsheet grades without an exception: on a
    complete sheet, when the key that the accepted rows give has as many
    entries as there are questions, the check that follows the upload
    grades the sheet with that key. *)
Theorem uploaded_key_grades (data : list (list Cell)) (s : State)
    (Hrows : sheetComplete s)
    (Hany : omap acceptedPair data <> [])
    (Hsize : size (keyOfPairs (omap acceptedPair data)) = totalQuestions s) :
  exists s',
    handleCheckAnswers (parseAnswerKeyFromExcel data s) = Done s' /\
    isGraded s' = true /\
    answerKey s' = keyOfPairs (omap acceptedPair data).
Proof.
  rewrite excel_parse_result.
  destruct (omap acceptedPair data) as [|p ps] eqn:E; [done|]. rewrite <- E in *.
  set (pairs := omap acceptedPair data) in *.
  rewrite handleCheckAnswers_uploaded; [|done|by apply keyOfPairs_nonempty].
  cbn [answerKey keyLoaded showStatusMessage hideError set_statusMessage set_checkError
       set_manualKeyInput set_answerKey totalQuestions].
  rewrite decide_True by done.
  destruct (gradeSheet_completes (keyLoaded pairs s)) as [s' Hs'].
  - exact Hrows.
  - apply keyOfPairs_selectorSafe, accepted_letters.
  - exists s'. split; [done|].
    by apply gradeSheet_Done in Hs' as (t & _ & _ & _ & _ & -> & -> & _).
Qed.

(** The upload of the sample key, followed by the check. *)
Lemma uploaded_key_grades_witness :
  exists s',
    handleCheckAnswers
      (parseAnswerKeyFromExcel
         [[CNumber 1; CString "A"]; [CNumber 2; CString "B"];
          [CNumber 3; CString "C"]; [CNumber 4; CString "D"]] sampleSheet) = Done s' /\
    isGraded s' = true.
Proof.
  assert (Hany : omap acceptedPair
                   [[CNumber 1; CString "A"]; [CNumber 2; CString "B"];
                    [CNumber 3; CString "C"]; [CNumber 4; CString "D"]] <> [])
    by (vm_compute; discriminate).
  destruct (uploaded_key_grades _ sampleSheet eq_refl Hany eq_refl) as (s' & H1 & H2 & _).
  by exists s'.
Defined.

(** ** Numbers and their decimal text *)

Lemma uint_digits d :
  forallb Js.isDigit (list_ascii_of_string (NilEmpty.string_of_uint d)) = true.
Proof. induction d; simpl; done. Qed.

Lemma uint_value_acc d : forall acc,
  foldl (fun a c => 10 * a + Js.digitValue c) (Z.pos acc)
    (list_ascii_of_string (NilEmpty.string_of_uint d))
  = Z.pos (Pos.of_uint_acc d acc).
Proof.
  induction d; intros acc; simpl; try done;
    rewrite <- IHd; f_equal;
    match goal with
    | |- context [Js.digitValue ?c] =>
        let v := eval vm_compute in (Js.digitValue c) in
        change (Js.digitValue c) with v
    end; lia.
Qed.

Lemma uint_value d :
  Js.digitsValue (list_ascii_of_string (NilEmpty.string_of_uint d)) = Z.of_uint d.
Proof.
  unfold Js.digitsValue, Z.of_uint.
  induction d; simpl; try done;
    match goal with
    | |- context [Js.digitValue ?c] =>
        let v := eval vm_compute in (Js.digitValue c) in
        change (Js.digitValue c) with v
    end; by rewrite <- uint_value_acc.
Qed.

Lemma uint_nonempty p : Pos.to_uint p <> Decimal.Nil.
Proof.
  intros H. pose proof (DecimalPos.Unsigned.of_to p) as E. rewrite H in E. done.
Qed.


Lemma decimal_nonneg z :
  0 <= z ->
  exists ds,
    NilZero.string_of_int (Z.to_int z) = string_of_list_ascii ds /\
    ds <> [] /\ forallb Js.isDigit ds = true /\ Js.digitsValue ds = z.
Proof.
  intros Hz. destruct z as [|p|p]; [by exists ["0"%char]| |lia].
  exists (list_ascii_of_string (NilEmpty.string_of_uint (Pos.to_uint p))).
  pose proof (uint_nonempty p) as Hne. simpl. unfold NilZero.string_of_uint.
  rewrite string_of_list_ascii_of_string.
  split; [by destruct (Pos.to_uint p)|].
  split; [by destruct (Pos.to_uint p)|].
  split; [apply uint_digits|].
  rewrite uint_value. unfold Z.of_uint. by rewrite DecimalPos.Unsigned.of_to.
Qed.



(** ** The timer display *)

Lemma append_length a b :
  String.length (String.append a b) = (String.length a + String.length b)%nat.
Proof. induction a as [|c a IH]; simpl; [done|by rewrite IH]. Qed.

Lemma length_string_of_list l : String.length (string_of_list_ascii l) = length l.
Proof. induction l as [|c l IH]; simpl; [done|by rewrite IH]. Qed.

Lemma string_of_list_app a b :
  string_of_list_ascii (a ++ b)
  = String.append (string_of_list_ascii a) (string_of_list_ascii b).
Proof.
  induction a as [|c a IH]; [done|].
  change (string_of_list_ascii ((c :: a) ++ b))
    with (String c (string_of_list_ascii (a ++ b))).
  rewrite IH. reflexivity.
Qed.

Lemma padStart_length n c s :
  String.length (padStart n c s) = Nat.max n (String.length s).
Proof.
  unfold padStart. rewrite append_length, length_string_of_list, length_replicate. lia.
Qed.

Lemma small_decimal_length z :
  0 <= z < 100 -> (String.length (decimal z) <= 2)%nat.
Proof.
  intros Hz.
  assert (H : forallb (fun n => (String.length (decimal (Z.of_nat n)) <=? 2)%nat)
                (seq 0 100) = true) by (vm_compute; reflexivity).
  rewrite forallb_forall in H. specialize (H (Z.to_nat z)).
  rewrite Z2Nat.id in H by lia. apply Nat.leb_le, H, in_seq. lia.
Qed.

(** Padding with zeros does not change the number that is read back. *)
Lemma parseInt_padStart n z :
  0 <= z -> Js.parseInt (padStart n "0" (decimal z)) = Some z.
Proof.
  intros Hz. destruct (decimal_nonneg z Hz) as (ds & Hd & Hne & Hdig & Hval).
  unfold padStart, decimal. rewrite Hd.
  set (k := (n - String.length (string_of_list_ascii ds))%nat). clearbody k.
  rewrite <- string_of_list_app, parseInt_digits.
  - f_equal. rewrite <- Hval. unfold Js.digitsValue. rewrite foldl_app.
    f_equal. induction k as [|k IH]; simpl; [done|exact IH].
  - destruct k; [done|]. done.
  - rewrite forallb_app, Hdig, andb_true_r. induction k as [|k IH]; simpl; done.
Qed.

(** The display reads back as the elapsed time in whole seconds: it is
    minutes, a colon and two digits of seconds, the seconds below 60;
    under 100 minutes it is exactly five characters long. *)
Theorem formatTime_reads_back (ms : Z) (Hms : 0 <= ms) :
  exists mm ss,
    formatTime ms = String.append mm (String ":" ss) /\
    String.length ss = 2%nat /\ (2 <= String.length mm)%nat /\
    Js.parseInt mm = Some (ms / 1000 / 60) /\
    Js.parseInt ss = Some ((ms / 1000) mod 60) /\
    60 * (ms / 1000 / 60) + (ms / 1000) mod 60 = ms / 1000 /\
    (ms < 6000000 -> String.length (formatTime ms) = 5%nat).
Proof.
  assert (Ht : 0 <= ms / 1000) by (apply Z.div_pos; lia).
  assert (Hm : 0 <= ms / 1000 / 60) by (apply Z.div_pos; lia).
  assert (Hs : 0 <= (ms / 1000) mod 60 < 60) by (apply Z.mod_pos_bound; lia).
  assert (Hrem : Z.rem (ms / 1000) 60 = (ms / 1000) mod 60) by (apply Z.rem_mod_nonneg; lia).
  exists (padStart 2 "0" (decimal (ms / 1000 / 60))),
         (padStart 2 "0" (decimal ((ms / 1000) mod 60))).
  assert (Hss : String.length (padStart 2 "0" (decimal ((ms / 1000) mod 60))) = 2%nat).
  { rewrite padStart_length.
    pose proof (small_decimal_length ((ms / 1000) mod 60)). lia. }
  split; [unfold formatTime; cbv zeta; by rewrite Hrem|].
  split; [done|]. split; [rewrite padStart_length; lia|].
  split; [by apply parseInt_padStart|]. split; [apply parseInt_padStart; lia|].
  split; [pose proof (Z.div_mod (ms / 1000) 60); lia|].
  intros Hlt. unfold formatTime. cbv zeta. rewrite Hrem, append_length. simpl.
  rewrite Hss, padStart_length.
  assert (ms / 1000 / 60 < 100).
  { apply Z.div_lt_upper_bound; [lia|]. apply Z.div_lt_upper_bound; lia. }
  pose proof (small_decimal_length (ms / 1000 / 60)). lia.
Qed.

Lemma formatTime_reads_back_witness :
  exists mm ss,
    formatTime 754321 = String.append mm (String ":" ss) /\
    Js.parseInt mm = Some 12 /\ Js.parseInt ss = Some 34.
Proof.
  destruct (formatTime_reads_back 754321) as (mm & ss & H & _ & _ & Hm & Hs & _); [lia|].
  exists mm, ss. repeat split; assumption.
Defined.

Example formatTime_samples :
  formatTime 0 = "00:00" /\ formatTime 59999 = "00:59" /\ formatTime 60000 = "01:00" /\
  formatTime 5999000 = "99:59" /\ formatTime 6000000 = "100:00" /\
  timeTaken 1700000754321 1700000000000 = "Time Taken: 12:34".
Proof. repeat split. Qed.

(** ** Where grading stops *)

Lemma value_safe o : existsb breaksSelector (list_ascii_of_string (value o)) = false.
Proof. by destruct o. Qed.

Lemma gradeQuestion_stops key i t row :
  rows t !! (i - 1)%nat = Some row ->
  stopsGrading key (rows t) i = true ->
  gradeQuestion key i t = inr (<[(i - 1)%nat := stoppedRow row]> (rows t)).
Proof.
  intros Hrow Hstop. unfold gradeQuestion. rewrite Hrow.
  unfold stopsGrading, selectedIn in Hstop. rewrite Hrow in Hstop. simpl in Hstop.
  destruct (checked row) as [o|] eqn:Ho; [|done].
  destruct (key !! Z.of_nat i) as [a|]; [|done].
  unfold sameAnswer. destruct (String.eqb_spec (value o) a) as [<-|_].
  - by rewrite value_safe in Hstop.
  - unfold queryCorrectLabel. rewrite Hstop. unfold stoppedRow. by rewrite Ho.
Qed.

Lemma gradeQuestion_goes_on key i t row :
  rows t !! (i - 1)%nat = Some row ->
  stopsGrading key (rows t) i = false ->
  exists t', gradeQuestion key i t = inl t'.
Proof.
  intros Hrow Hstop. unfold gradeQuestion. rewrite Hrow.
  unfold stopsGrading, selectedIn in Hstop. rewrite Hrow in Hstop. simpl in Hstop.
  destruct (checked row) as [o|]; [|eauto].
  destruct (sameAnswer o (key !! Z.of_nat i)); [eauto|].
  unfold queryCorrectLabel.
  destruct (key !! Z.of_nat i) as [a|]; [|eauto]. rewrite Hstop.
  destruct (find _ letters); eauto.
Qed.

Lemma stopsGrading_insert_ne key rs j r i :
  (i - 1)%nat <> j -> stopsGrading key (<[j := r]> rs) i = stopsGrading key rs i.
Proof. intros H. unfold stopsGrading. by rewrite selectedIn_insert_ne. Qed.

(** The loop over the questions [a .. a + m - 1] on rows that are all
    there: it runs to its end when no question stops it, and otherwise it
    stops at the first question that does, with the questions before it
    graded, that question marked incorrect and the rest untouched. *)
Lemma gradeLoop_outcome key m : forall a t,
  (1 <= a)%nat -> (a - 1 + m <= length (rows t))%nat ->
  match gradeLoop key (seq a m) t with
  | inl _ => forall i, (a <= i < a + m)%nat -> stopsGrading key (rows t) i = false
  | inr rs =>
      exists i row,
        (a <= i < a + m)%nat /\ stopsGrading key (rows t) i = true /\
        (forall j, (a <= j < i)%nat -> stopsGrading key (rows t) j = false) /\
        rows t !! (i - 1)%nat = Some row /\
        rs !! (i - 1)%nat = Some (stoppedRow row) /\
        (forall j r, (a <= j < i)%nat -> rows t !! (j - 1)%nat = Some r ->
           rs !! (j - 1)%nat = Some (gradedRow key j r)) /\
        (forall j, ~ (a - 1 <= j < i)%nat -> rs !! j = rows t !! j)
  end.
Proof.
  induction m as [|m IH]; intros a t Ha Hlen; simpl; [intros; lia|].
  destruct (lookup_lt_is_Some_2 (rows t) (a - 1)%nat) as [row Hrow]; [lia|].
  destruct (stopsGrading key (rows t) a) eqn:Hstop.
  - rewrite (gradeQuestion_stops key a t row Hrow Hstop).
    exists a, row. split; [lia|]. split; [done|]. split; [intros; lia|]. split; [done|].
    split; [apply list_lookup_insert_eq; lia|]. split; [intros; lia|].
    intros j Hj. apply list_lookup_insert_ne. lia.
  - destruct (gradeQuestion_goes_on key a t row Hrow Hstop) as [t1 Hq]. rewrite Hq.
    apply gradeQuestion_inl in Hq as (row' & Hrow' & ->).
    rewrite Hrow in Hrow'. injection Hrow' as <-.
    specialize (IH (S a) (countIn (classify key (checked row) a) t
                            (<[(a - 1)%nat:=gradedRow key a row]> (rows t)))).
    rewrite countIn_rows, length_insert in IH.
    specialize (IH ltac:(lia) ltac:(lia)).
    destruct (gradeLoop key (seq (S a) m) _) as [t'|rs].
    + intros i Hi. destruct (decide (i = a)) as [->|Hne]; [done|].
      rewrite <- (IH i) by lia. symmetry. apply stopsGrading_insert_ne. lia.
    + destruct IH as (i & r & Hi & Hs & Hbefore & Hr & Hrs & Hgraded & Hout).
      rewrite stopsGrading_insert_ne in Hs by lia.
      rewrite list_lookup_insert_ne in Hr by lia.
      exists i, r. split; [lia|]. split; [done|]. split; [|split; [done|split; [done|split]]].
      * intros j Hj. destruct (decide (j = a)) as [->|Hne]; [done|].
        rewrite <- (Hbefore j) by lia. symmetry. apply stopsGrading_insert_ne. lia.
      * intros j r' Hj Hr'. destruct (decide (j = a)) as [->|Hne].
        -- rewrite Hout by lia. rewrite Hrow in Hr'. injection Hr' as <-.
           apply list_lookup_insert_eq. lia.
        -- apply Hgraded; [lia|]. by rewrite list_lookup_insert_ne by lia.
      * intros j Hj. rewrite Hout by lia. apply list_lookup_insert_ne. lia.
Qed.

(** Grading a complete sheet is stopped by an exception exactly when some
    question stops it.  It then stops at the first such question:
    [isGraded] is already set and the timer stopped, the questions before
    are graded, the question itself is marked incorrect, the questions
    after it are untouched and the results panel is not written. *)
Theorem grading_stops_exactly (s : State) (Hrows : sheetComplete s) :
  match gradeSheet s with
  | Done _ =>
      forall i, (1 <= i <= totalQuestions s)%nat ->
        stopsGrading (answerKey s) (sheet s) i = false
  | Threw s' =>
      isGraded s' = true /\ timerRunning s' = false /\ results s' = results s /\
      exists i row,
        (1 <= i <= totalQuestions s)%nat /\
        stopsGrading (answerKey s) (sheet s) i = true /\
        (forall j, (1 <= j < i)%nat -> stopsGrading (answerKey s) (sheet s) j = false) /\
        sheet s !! (i - 1)%nat = Some row /\
        sheet s' !! (i - 1)%nat = Some (stoppedRow row) /\
        (forall j r, (1 <= j < i)%nat -> sheet s !! (j - 1)%nat = Some r ->
           sheet s' !! (j - 1)%nat = Some (gradedRow (answerKey s) j r)) /\
        (forall j, (i <= j)%nat -> sheet s' !! j = sheet s !! j)
  end.
Proof.
  unfold gradeSheet. simpl.
  pose proof (gradeLoop_outcome (answerKey s) (totalQuestions s) 1
                (mkTally 0 0 0 (sheet s)) (le_n 1)) as H.
  simpl in H. specialize (H ltac:(rewrite Hrows; lia)).
  destruct (gradeLoop _ _ _) as [t|rs]; simpl.
  - intros i Hi. apply H. lia.
  - destruct H as (i & row & Hi & Hs & Hb & Hr & Hrs & Hg & Hout).
    split; [done|]. split; [done|]. split; [done|].
    exists i, row. split; [lia|]. split; [done|]. split; [done|]. split; [done|].
    split; [done|]. split; [done|].
    intros j Hj. apply Hout. lia.
Qed.


(** In the sample session with the quoted key, grading stops at
    question 2. *)
Lemma grading_stops_exactly_witness :
  sheetComplete sampleQuotedKey /\
  exists s',
    gradeSheet sampleQuotedKey = Threw s' /\
    isGraded s' = true /\ results s' = None /\
    stopsGrading (answerKey sampleQuotedKey) (sheet sampleQuotedKey) 2 = true /\
    sheet s' !! 2%nat = sheet sampleQuotedKey !! 2%nat /\
    sheet s' !! 3%nat = sheet sampleQuotedKey !! 3%nat.
Proof.
  assert (Hrows : sheetComplete sampleQuotedKey) by reflexivity.
  split; [exact Hrows|].
  pose proof (grading_stops_exactly sampleQuotedKey Hrows) as H.
  destruct (gradeSheet sampleQuotedKey) as [s'|s'] eqn:E.
  - specialize (H 2%nat ltac:(vm_compute; lia)). vm_compute in H. discriminate H.
  - destruct H as (Hg & _ & Hr & i & row & Hi & Hs & Hb & _ & _ & _ & Hafter).
    assert (i = 2%nat) as ->.
    { change (totalQuestions sampleQuotedKey) with 4%nat in Hi.
      destruct (decide (i = 1%nat)) as [->|]; [vm_compute in Hs; discriminate Hs|].
      destruct (decide (i = 2%nat)) as [->|]; [done|].
      specialize (Hb 2%nat ltac:(lia)). vm_compute in Hb. discriminate Hb. }
    exists s'. split; [done|]. split; [done|]. split; [by rewrite Hr|].
    split; [done|]. split; apply Hafter; lia.
Defined.

(** C1 fails in the code.  The sample sheet has four questions, answered
    A, A, nothing and D, and the manual key is A, a double quote, C, D.
    Question by question the outcomes C1 names are correct, incorrect,
    unanswered and correct.  [handleCheckAnswers] takes the key as it is
    typed and [gradeSheet] marks question 1 correct and question 2
    incorrect; then the key entry of question 2 goes into the selector of
    the label to highlight, the selector is ill-formed and [querySelector]
    throws.  Questions 3 and 4 are never looked at: their rows carry no
    outcome and can still be changed, and no count and no score is
    shown, although [isGraded] is set and the timer is stopped. *)
Theorem quoted_key_stops_grading :
  reachable sampleQuoted /\
  totalQuestions sampleQuoted = 4%nat /\
  checked <$> sheet sampleQuoted = [Some OptA; Some OptA; None; Some OptD] /\
  Js.toUpperCase (Js.trim (manualKeyInput sampleQuoted))
  = String "A" (String (ascii_of_nat 34) "CD") /\
  exists s',
    handleCheckAnswers sampleQuoted = Threw s' /\
    answerKey s'
    = list_to_map [(1, "A"); (2, String (ascii_of_nat 34) EmptyString);
                   (3, "C"); (4, "D")] /\
    (fun i => classify (answerKey s') (selectedIn (sheet sampleQuoted) i) i)
      <$> [1; 2; 3; 4]%nat
    = [Correct; Incorrect; Unanswered; Correct] /\
    rowClass <$> sheet s' = [Some ClsCorrect; Some ClsIncorrect; None; None] /\
    disabled <$> sheet s' = [true; true; false; false] /\
    checked <$> sheet s' = [Some OptA; Some OptA; None; Some OptD] /\
    results s' = None /\ results sampleQuoted = None /\
    isGraded s' = true /\ timerRunning s' = false /\ timerRunning sampleQuoted = true.
Proof.
  split; [constructor; apply reachable_run; constructor|].
  split; [reflexivity|]. split; [reflexivity|]. split; [reflexivity|].
  eexists. split; [vm_compute; reflexivity|].
  split; [vm_compute; reflexivity|].
  split; [vm_compute; reflexivity|].
  split; [reflexivity|]. split; [reflexivity|]. split; [reflexivity|].
  split; [reflexivity|]. split; [reflexivity|]. split; [reflexivity|].
  split; reflexivity.
Qed.

(** ** What holds throughout a session *)

Lemma gradeQuestion_clearShown key i t :
  Forall clearShownRight (rows t) ->
  match gradeQuestion key i t with
  | inl t' => Forall clearShownRight (rows t')
  | inr rs => Forall clearShownRight rs
  end.
Proof.
  intros H. unfold gradeQuestion.
  destruct (rows t !! (i - 1)%nat) as [row|]; [|done].
  assert (Hput : forall c r,
            Forall clearShownRight
              (<[(i - 1)%nat := mkRow (checked row) true true c r]> (rows t))).
  { intros c r. apply Forall_insert; [done|]. intros Hc. discriminate Hc. }
  destruct (checked row) as [o|]; [|apply Hput].
  destruct (sameAnswer o (key !! Z.of_nat i)); [apply Hput|].
  destruct (queryCorrectLabel (key !! Z.of_nat i)); apply Hput.
Qed.

Lemma gradeLoop_clearShown key todo : forall t,
  Forall clearShownRight (rows t) ->
  match gradeLoop key todo t with
  | inl t' => Forall clearShownRight (rows t')
  | inr rs => Forall clearShownRight rs
  end.
Proof.
  induction todo as [|i todo IH]; intros t H; simpl; [done|].
  pose proof (gradeQuestion_clearShown key i t H) as Hq.
  destruct (gradeQuestion key i t) as [t'|rs]; [by apply IH|done].
Qed.

Lemma gradeSheet_invariant s : sessionInvariant s -> sessionInvariant (stateOf (gradeSheet s)).
Proof.
  intros (Hn & Hw & _ & Hrows & Hkey). unfold gradeSheet. simpl.
  pose proof (gradeLoop_clearShown (answerKey s) (seq 1 (totalQuestions s))
                (mkTally 0 0 0 (sheet s)) Hrows) as Hl.
  destruct (gradeLoop _ _ _) as [t|rs]; simpl; repeat split; done.
Qed.

Lemma charAt_length m i a : Js.charAt m i = Some a -> String.length a = 1%nat.
Proof. unfold Js.charAt. destruct (String.get i m); [|done]. by intros [= <-]. Qed.

Lemma handleCheckAnswers_invariant s :
  sessionInvariant s -> sessionInvariant (stateOf (handleCheckAnswers s)).
Proof.
  intros H. pose proof H as (Hn & Hw & Hg & Hrows & Hkey). unfold handleCheckAnswers.
  destruct (nonEmpty _ || _); [|done].
  destruct (nonEmpty _).
  - destruct (negb _); [done|]. apply gradeSheet_invariant.
    repeat split; try done. simpl. intros q a. rewrite manualAnswerKey_lookup.
    destruct (decide _); [apply charAt_length|done].
  - destruct (negb _); [done|]. by apply gradeSheet_invariant.
Qed.

Lemma letter_length a : a ∈ ["A"; "B"; "C"; "D"] -> String.length a = 1%nat.
Proof. rewrite !elem_of_cons, elem_of_nil. intros [->|[->|[->|[->|[]]]]]; reflexivity. Qed.

Lemma normalizeWrongMarks_not_positive w x :
  normalizeWrongMarks w = Some x -> Js.isPositive x = false.
Proof.
  destruct w as [y|]; [|done]. simpl.
  destruct (Js.isPositive y) eqn:E; intros [= <-]; [|done].
  destruct y as [|q]; [done|]. simpl in *.
  destruct (Qcompare q 0) eqn:Ec; try done.
  apply Qgt_alt in Ec.
  destruct (Qcompare (- q) 0) eqn:Ec'; try done.
  apply Qgt_alt in Ec'. exfalso.
  assert (0 < - q + q)%Q as Hs.
  { rewrite <- (Qplus_0_l 0). apply Qplus_lt_le_compat; [done|]. by apply Qlt_le_weak. }
  rewrite (Qplus_comm (- q) q), Qplus_opp_r in Hs. by apply Qlt_irrefl in Hs.
Qed.

Lemma step_invariant e s : sessionInvariant s -> sessionInvariant (step e s).
Proof.
  intros H. pose proof H as (Hn & Hw & Hg & Hrows & Hkey).
  destruct e; simpl; try done.
  - unfold generateOMRSheet.
    destruct (Js.parseInt (questionCountInput s)) as [count|]; [|done].
    destruct ((count <? 1) || (200 <? count)) eqn:Hc; [done|].
    apply orb_false_iff in Hc as [H1 H2].
    repeat split; simpl; try done.
    + lia.
    + apply normalizeWrongMarks_not_positive.
    + rewrite <- list_fmap_compose. apply Forall_fmap, Forall_forall.
      intros i _ Hc. discriminate Hc.
  - unfold clickOption. destruct i as [|j]; [done|].
    destruct (sheet s !! j) as [row|] eqn:Hrow; [|done].
    destruct (disabled row) eqn:Hd; [done|].
    repeat split; try done. simpl. apply Forall_insert; [done|].
    intros _. simpl. by split.
  - unfold clickClear, clearSelection. destruct i as [|j]; [done|].
    destruct (sheet s !! j) as [row|] eqn:Hrow; [|done].
    destruct (clearHidden row); [done|].
    repeat split; try done. simpl. apply Forall_insert; [done|].
    intros Hc. discriminate Hc.
  - unfold clickCheck.
    pose proof (handleCheckAnswers_invariant s H) as H1.
    destruct (checkBtnOnclick (stateOf (handleCheckAnswers s))); [done| |done].
    by apply handleCheckAnswers_invariant.
  - repeat split; simpl; try done. lia.
  - repeat split; simpl; try done. apply Forall_fmap, Forall_forall.
    intros row _ Hc. discriminate Hc.
  - rewrite excel_parse_result.
    pose proof (accepted_letters data) as Hall.
    destruct (omap acceptedPair data) as [|p ps] eqn:E; [done|].
    repeat split; try done. simpl. rewrite <- E in *.
    intros q a (pre & post & Heq & _)%keyOfPairs_lookup.
    rewrite Heq in Hall. apply Forall_app in Hall as [_ Hall].
    apply Forall_cons in Hall as [Ha _]. by apply letter_length.
  - destruct (text_parse_result text s) as (ms & _ & Hall & ->). simpl.
    assert (Hk : forall q a,
              keyOfPairs (entryOf <$> ms) !! q = Some a -> String.length a = 1%nat).
    { intros q a (pre & post & Heq & _)%keyOfPairs_lookup.
      apply fmap_app_inv in Heq as (pre' & rest & _ & Hrest & ->).
      symmetry in Hrest. apply fmap_cons_inv in Hrest as (m' & post' & Hm & _ & ->).
      apply Forall_app in Hall as [_ Hall]. apply Forall_cons in Hall as [Hm' _].
      destruct Hm' as (_ & ds & a' & Hgr & _ & _ & Ha' & _).
      unfold entryOf, Regex.group in Hm. rewrite Hgr in Hm. simpl in Hm.
      injection Hm as _ <-. by apply letter_length. }
    destruct ms as [|m0 ms0]; [done|]. repeat split; done.
Qed.

(** Throughout a session: there are at most 200 questions; the stored
    marks for a wrong answer are never positive; once the sheet is graded
    the timer is stopped; the Clear button of a row is shown only while
    the row has a selection that can still be changed; and every entry of
    the stored key is a single character. *)
Theorem session_invariants (s : State) (H : reachable s) : sessionInvariant s.
Proof.
  induction H as [|e s _ IH]; [|by apply step_invariant].
  repeat split; simpl; first [done|lia|constructor].
Qed.

Lemma session_invariants_witness :
  (totalQuestions sampleUploaded <= 200)%nat /\
  (forall w, wrongMarks sampleUploaded = Some w -> Js.isPositive w = false) /\
  (forall q a, answerKey sampleUploaded !! q = Some a -> String.length a = 1%nat).
Proof.
  destruct (session_invariants sampleUploaded sampleUploaded_reachable)
    as (Hn & Hw & _ & _ & Hk).
  split; [exact Hn|]. split; [exact Hw|exact Hk].
Defined.

(** Grading freezes the sheet: after a pass that ran to its end every row
    is disabled and its Clear button hidden, the selections are the ones
    that were graded, and a click on an option or on a Clear button
    changes nothing. *)
Theorem grading_freezes_sheet (s s' : State)
    (Hrows : sheetComplete s) (Hdone : gradeSheet s = Done s') :
  Forall (fun row => disabled row = true /\ clearHidden row = true) (sheet s') /\
  checked <$> sheet s' = checked <$> sheet s /\
  (forall i o, clickOption i o s' = s') /\
  (forall i, clickClear i s' = s').
Proof.
  destruct (gradeSheet_Done s s' Hdone) as (t & Ht & _ & Hsheet & _).
  destruct (gradeLoop_inl _ _ _ _ _ (le_n 1) Ht) as (Hlen & _ & _ & _ & Hin & _).
  simpl in Hlen, Hin. rewrite <- Hsheet in Hlen, Hin. clear Ht Hsheet.
  assert (Hrow : forall j row', sheet s' !! j = Some row' ->
            exists row, sheet s !! j = Some row /\
                        row' = gradedRow (answerKey s) (S j) row).
  { intros j row' Hj. pose proof (lookup_lt_Some _ _ _ Hj) as Hlt.
    destruct (Hin (S j)) as (row & Hr & Hr'); [unfold sheetComplete in Hrows; lia|].
    simpl in Hr, Hr'. rewrite Nat.sub_0_r in Hr, Hr'. exists row. split; [done|].
    congruence. }
  assert (Hall : Forall (fun row => disabled row = true /\ clearHidden row = true)
                   (sheet s')).
  { apply Forall_lookup. intros j row' Hj. by destruct (Hrow j row' Hj) as (row & _ & ->). }
  split; [done|]. split; [|split].
  - apply list_eq. intros j. rewrite !list_lookup_fmap.
    destruct (sheet s' !! j) as [row'|] eqn:Hj.
    + destruct (Hrow j row' Hj) as (row & -> & ->). done.
    + apply lookup_ge_None in Hj. rewrite Hlen in Hj.
      by rewrite (proj2 (lookup_ge_None (sheet s) j) Hj).
  - intros i o. unfold clickOption. destruct i as [|j]; [done|].
    destruct (sheet s' !! j) as [row'|] eqn:Hj; [|done].
    eapply Forall_lookup_1 in Hall as [-> _]; [|exact Hj]. done.
  - intros i. unfold clickClear. destruct i as [|j]; [done|].
    destruct (sheet s' !! j) as [row'|] eqn:Hj; [|done].
    eapply Forall_lookup_1 in Hall as [_ ->]; [|exact Hj]. done.
Qed.

Lemma grading_freezes_sheet_witness :
  exists s',
    gradeSheet sampleUploaded = Done s' /\
    checked <$> sheet s' = [Some OptA; Some OptA; None; Some OptD] /\
    clickOption 3 OptC s' = s' /\ clickClear 1 s' = s'.
Proof.
  eexists. split; [vm_compute; reflexivity|].
  match goal with
  | |- context [clickClear 1 ?x] =>
      destruct (grading_freezes_sheet sampleUploaded x) as (_ & Hc & Ho & Hcl);
        [reflexivity|vm_compute; reflexivity|]
  end.
  split; [rewrite Hc; reflexivity|]. split; [apply Ho|apply Hcl].
Defined.
